(** * Buildarr Sonarr plugin: reconciliation core

    A shallow embedding of the reconciliation code of the plugin
    (settings orchestrator, tags, list exclusions, download clients,
    Newznab categories) and the properties its specification states.

    Python values are modelled by [pyval], insertion-ordered dictionaries
    by association lists, raised exceptions by the left summand of
    [result], and the calls a method issues to the Sonarr API client and
    to the logger by a chronological trace threaded through the
    state-and-error monad [M]. *)

From Stdlib Require Import ZArith List String Ascii Bool Lia DecimalString.
From Stdlib Require Orders Mergesort Permutation Sorted.
Import ListNotations.

Local Open Scope Z_scope.
Local Open Scope list_scope.

(* ================================================================== *)
(** * Python runtime: exceptions, the monad, dictionaries               *)
(* ================================================================== *)

Module Py.

(** Exceptions: the built-in ones the embedded code can raise, and the
    plugin's own classes of [exceptions.py]. *)
Inductive exn : Type :=
| KeyError
| StopIteration
| TypeError
| SonarrError
| SonarrAPIError (status_code : Z)
| SonarrConfigError
| SonarrConfigUnsupportedError
| SonarrSecretsError
| SonarrSecretsUnauthorizedError.

(** [isinstance(e, SonarrConfigError)], following the class hierarchy of
    [exceptions.py]. *)
Definition is_SonarrConfigError (e : exn) : bool :=
  match e with
  | SonarrConfigError | SonarrConfigUnsupportedError => true
  | _ => false
  end.

(** [isinstance(e, SonarrError)]. *)
Definition is_SonarrError (e : exn) : bool :=
  match e with
  | KeyError | StopIteration | TypeError => false
  | _ => true
  end.

Definition result (A : Type) : Type := (exn + A)%type.

(** A computation over a world [W]: it returns a value or raises, and in
    both cases leaves the world as far as it got. *)
Definition M (W A : Type) : Type := W -> result A * W.

Definition ret {W A : Type} (a : A) : M W A := fun w => (inr a, w).

Definition raise {W A : Type} (e : exn) : M W A := fun w => (inl e, w).

Definition bind {W A B : Type} (m : M W A) (f : A -> M W B) : M W B :=
  fun w =>
    match m w with
    | (inl e, w') => (inl e, w')
    | (inr a, w') => f a w'
    end.

(** Lifting of a pure fallible expression. *)
Definition lift {W A : Type} (r : result A) : M W A := fun w => (r, w).

(** A Python list display [[e1, ..., en]]: the element expressions are
    evaluated left to right, every one of them, before the list exists. *)
Fixpoint list_display {W A : Type} (es : list (M W A)) : M W (list A) :=
  match es with
  | [] => ret []
  | e :: es' =>
      bind e (fun a => bind (list_display es') (fun l => ret (a :: l)))
  end.

(** The built-in [any] on a list of booleans. *)
Definition any (bs : list bool) : bool := existsb (fun b => b) bs.

(** ** Insertion-ordered dictionaries *)

Section Dict.
Context {K V : Type} (eqb : K -> K -> bool).

Definition dict : Type := list (K * V).

(** [d.get(k)] *)
Fixpoint dict_get (k : K) (d : dict) : option V :=
  match d with
  | [] => None
  | (k', v) :: d' => if eqb k k' then Some v else dict_get k d'
  end.

(** [k in d] *)
Definition dict_mem (k : K) (d : dict) : bool :=
  match dict_get k d with Some _ => true | None => false end.

(** [d[k]] *)
Definition dict_index (k : K) (d : dict) : result V :=
  match dict_get k d with Some v => inr v | None => inl KeyError end.

(** [d[k] = v]: an existing key keeps its position, a new key goes last. *)
Fixpoint dict_set (k : K) (v : V) (d : dict) : dict :=
  match d with
  | [] => [(k, v)]
  | (k', v') :: d' =>
      if eqb k k' then (k', v) :: d' else (k', v') :: dict_set k v d'
  end.

(** [{k: v for (k, v) in items}], built by successive assignments. *)
Definition dict_of_items (items : list (K * V)) : dict :=
  fold_left (fun d kv => dict_set (fst kv) (snd kv) d) items [].

(** [{**a, **b}] *)
Definition dict_merge (a b : dict) : dict :=
  fold_left (fun d kv => dict_set (fst kv) (snd kv) d) b a.

Definition dict_keys (d : dict) : list K := map fst d.
Definition dict_values (d : dict) : list V := map snd d.
End Dict.

Arguments dict : clear implicits.

(** ** Values *)

(** The values that travel in attribute dictionaries: [None], booleans,
    integers, strings, lists, and dictionaries with string keys (the shape
    of what a resource's [to_dict()] returns). *)
#[local] Unset Elimination Schemes.
Inductive pyval : Type :=
| PyNone
| PyBool (b : bool)
| PyInt (z : Z)
| PyStr (s : string)
| PyList (l : list pyval)
| PyDict (d : list (string * pyval)).
#[local] Set Elimination Schemes.

(** A dictionary with string keys. *)
Definition pydict : Type := dict string pyval.

(** Lists and dictionaries are unhashable. *)
Definition hashable (v : pyval) : bool :=
  match v with
  | PyList _ | PyDict _ => false
  | _ => true
  end.

(** [a == b] on hashable values, as a dictionary compares its keys:
    a boolean is the integer 0 or 1. *)
Definition key_eqb (a b : pyval) : bool :=
  match a, b with
  | PyNone, PyNone => true
  | PyStr s, PyStr s' => String.eqb s s'
  | PyInt z, PyInt z' => Z.eqb z z'
  | PyInt z, PyBool b' => Z.eqb z (Z.b2z b')
  | PyBool b, PyInt z' => Z.eqb (Z.b2z b) z'
  | PyBool b, PyBool b' => Bool.eqb b b'
  | _, _ => false
  end.

(** [v[k]] for a string [k]: only a dictionary can be subscripted by a
    string. *)
Definition getitem (v : pyval) (k : string) : result pyval :=
  match v with
  | PyDict d => dict_index String.eqb k d
  | _ => inl TypeError
  end.

(** The elements a [for] clause draws from [v]: the items of a list, the
    keys of a dictionary, the characters of a string. *)
Definition iter (v : pyval) : result (list pyval) :=
  match v with
  | PyList l => inr l
  | PyDict d => inr (map (fun kv => PyStr (fst kv)) d)
  | PyStr s =>
      inr (map (fun c => PyStr (String c EmptyString)) (list_ascii_of_string s))
  | _ => inl TypeError
  end.

(** [str(z)] for an integer, and its use in an f-string. *)
Definition str_of_int (z : Z) : string := NilZero.string_of_int (Z.to_int z).

(** [c.lower()] and [s.lower()] on ASCII text. *)
Definition lower_ascii (c : ascii) : ascii :=
  let n := nat_of_ascii c in
  if (Nat.leb 65 n && Nat.leb n 90)%bool then ascii_of_nat (n + 32) else c.

Fixpoint lower (s : string) : string :=
  match s with
  | EmptyString => EmptyString
  | String c s' => String (lower_ascii c) (lower s')
  end.

End Py.

Export Py.

Declare Scope py_scope.
Delimit Scope py_scope with py.
Notation "x <- c1 ;; c2" := (bind c1 (fun x => c2))
  (at level 61, c1 at next level, right associativity) : py_scope.
Notation "c1 ;; c2" := (bind c1 (fun _ => c2))
  (at level 61, right associativity) : py_scope.
Local Open Scope py_scope.

(** Sequential execution of a list of computations, every one returning
    normally: [runs cs w bs w'] holds when the computations of [cs], run one
    after the other from world [w], each on the world its predecessor left,
    return the values [bs] and leave the world [w']. *)
Inductive runs {W A : Type} : list (M W A) -> W -> list A -> W -> Prop :=
| runs_nil : forall w, runs [] w [] w
| runs_cons : forall c cs w a w1 l w2,
    c w = (inr a, w1) ->
    runs cs w1 l w2 ->
    runs (c :: cs) w (a :: l) w2.

(** ** Sorting integers *)

(** The order [sorted] puts integers in. *)
Module ZOrder <: Orders.TotalLeBool.
Definition t : Type := Z.
Definition leb : Z -> Z -> bool := Z.leb.
Theorem leb_total : forall a1 a2, leb a1 a2 = true \/ leb a2 a1 = true.
Proof.
  intros a1 a2. unfold leb.
  destruct (Z.leb_spec a1 a2); [now left | right; apply Z.leb_le; lia].
Qed.
End ZOrder.

Module ZSort := Mergesort.Sort ZOrder.

(** The built-in [sorted] on a list of integers: a merge sort, ascending. *)
Definition sorted (l : list Z) : list Z := ZSort.sort l.

(** Consecutive elements do not decrease. *)
Fixpoint ascending (l : list Z) : bool :=
  match l with
  | a :: (b :: _) as rest => Z.leb a b && ascending rest
  | _ => true
  end.

(* ================================================================== *)
(** * Settings orchestrator ([config/settings/__init__.py])             *)
(* ================================================================== *)

Module SonarrSettings.

(** The settings sections, named after the attributes of the class. *)
Inductive SectionName : Type :=
| MediaManagement | Profiles | Quality | CustomFormats | Indexers
| DownloadClients | Metadata | Tags | General | UI.

(** The attribute name of a section, as spelled in the tree paths. *)
Definition attr (s : SectionName) : string :=
  match s with
  | MediaManagement => "media_management"
  | Profiles => "profiles"
  | Quality => "quality"
  | CustomFormats => "custom_formats"
  | Indexers => "indexers"
  | DownloadClients => "download_clients"
  | Metadata => "metadata"
  | Tags => "tags"
  | General => "general"
  | UI => "ui"
  end.

Section Orchestrator.
(** The section classes live in modules of their own; the orchestrator only
    calls their two reconciliation methods, which are taken here as they
    come: [Cfg s] is the configuration class of section [s]. *)
Context {World Secrets : Type} {Cfg : SectionName -> Type}.
Variable sec_update_remote :
  forall s, Cfg s -> string -> Secrets -> Cfg s -> bool -> M World bool.
Variable sec_delete_remote :
  forall s, Cfg s -> string -> Secrets -> Cfg s -> M World bool.

Record t : Type := {
  media_management : Cfg MediaManagement;
  profiles : Cfg Profiles;
  quality : Cfg Quality;
  custom_formats : Cfg CustomFormats;
  indexers : Cfg Indexers;
  download_clients : Cfg DownloadClients;
  metadata : Cfg Metadata;
  tags : Cfg Tags;
  general : Cfg General;
  ui : Cfg UI
}.

Definition update_remote (self : t) (tree : string) (secrets : Secrets)
    (remote : t) (check_unmanaged : bool) : M World bool :=
  bs <- list_display [
    sec_update_remote Tags self.(tags)
      (tree ++ ".tags")%string secrets remote.(tags) check_unmanaged;
    sec_update_remote Quality self.(quality)
      (tree ++ ".quality")%string secrets remote.(quality) check_unmanaged;
    sec_update_remote CustomFormats self.(custom_formats)
      (tree ++ ".custom_formats")%string secrets remote.(custom_formats)
      check_unmanaged;
    sec_update_remote DownloadClients self.(download_clients)
      (tree ++ ".download_clients")%string secrets remote.(download_clients)
      check_unmanaged;
    sec_update_remote Indexers self.(indexers)
      (tree ++ ".indexers")%string secrets remote.(indexers) check_unmanaged;
    sec_update_remote MediaManagement self.(media_management)
      (tree ++ ".media_management")%string secrets remote.(media_management)
      check_unmanaged;
    sec_update_remote Profiles self.(profiles)
      (tree ++ ".profiles")%string secrets remote.(profiles) check_unmanaged;
    sec_update_remote Metadata self.(metadata)
      (tree ++ ".metadata")%string secrets remote.(metadata) check_unmanaged;
    sec_update_remote General self.(general)
      (tree ++ ".general")%string secrets remote.(general) check_unmanaged;
    sec_update_remote UI self.(ui)
      (tree ++ ".ui")%string secrets remote.(ui) check_unmanaged
  ] ;;
  ret (any bs).

Definition delete_remote (self : t) (tree : string) (secrets : Secrets)
    (remote : t) : M World bool :=
  bs <- list_display [
    sec_delete_remote Profiles self.(profiles)
      (tree ++ ".profiles")%string secrets remote.(profiles);
    sec_delete_remote Indexers self.(indexers)
      (tree ++ ".indexers")%string secrets remote.(indexers);
    sec_delete_remote DownloadClients self.(download_clients)
      (tree ++ ".download_clients")%string secrets remote.(download_clients);
    sec_delete_remote MediaManagement self.(media_management)
      (tree ++ ".media_management")%string secrets remote.(media_management);
    sec_delete_remote Tags self.(tags)
      (tree ++ ".tags")%string secrets remote.(tags);
    sec_delete_remote CustomFormats self.(custom_formats)
      (tree ++ ".custom_formats")%string secrets remote.(custom_formats);
    sec_delete_remote Quality self.(quality)
      (tree ++ ".quality")%string secrets remote.(quality);
    sec_delete_remote Metadata self.(metadata)
      (tree ++ ".metadata")%string secrets remote.(metadata);
    sec_delete_remote General self.(general)
      (tree ++ ".general")%string secrets remote.(general);
    sec_delete_remote UI self.(ui)
      (tree ++ ".ui")%string secrets remote.(ui)
  ] ;;
  ret (any bs).

(** *** Vocabulary of the specification *)

(** [getattr(self, attr s)] *)
Definition section (self : t) (s : SectionName) : Cfg s :=
  match s with
  | MediaManagement => self.(media_management)
  | Profiles => self.(profiles)
  | Quality => self.(quality)
  | CustomFormats => self.(custom_formats)
  | Indexers => self.(indexers)
  | DownloadClients => self.(download_clients)
  | Metadata => self.(metadata)
  | Tags => self.(tags)
  | General => self.(general)
  | UI => self.(ui)
  end.

(** The update pass of one section, on its own sub-tree and on its own
    part of the remote configuration. *)
Definition update_section (self : t) (tree : string) (secrets : Secrets)
    (remote : t) (check_unmanaged : bool) (s : SectionName) : M World bool :=
  sec_update_remote s (section self s) (tree ++ "." ++ attr s)%string
    secrets (section remote s) check_unmanaged.

(** The deletion pass of one section. *)
Definition delete_section (self : t) (tree : string) (secrets : Secrets)
    (remote : t) (s : SectionName) : M World bool :=
  sec_delete_remote s (section self s) (tree ++ "." ++ attr s)%string
    secrets (section remote s).
End Orchestrator.

Arguments t : clear implicits.

(** The section orders the specification fixes. *)
Definition update_order : list SectionName :=
  [Tags; Quality; CustomFormats; DownloadClients; Indexers;
   MediaManagement; Profiles; Metadata; General; UI].

Definition delete_order : list SectionName :=
  [Profiles; Indexers; DownloadClients; MediaManagement; Tags;
   CustomFormats; Quality; Metadata; General; UI].

End SonarrSettings.

(* ================================================================== *)
(** * What a reconciliation method does to the outside                  *)
(* ================================================================== *)

(** An argument of a logger call: a string, an integer, or the [repr] of a
    string. *)
Inductive logarg : Type :=
| ArgStr (s : string)
| ArgInt (i : Z)
| ArgRepr (s : string).

Inductive level : Type := DEBUG | INFO.

(** The calls that leave a method, in the order they are made: the mutating
    calls of the generated API client, each with the resource or id it is
    given, and the logger calls. Listing calls change nothing on the remote
    side; what they return is an argument of the method that makes them. *)
Inductive event : Type :=
| Log (lvl : level) (fmt : string) (args : list logarg)
| create_tag (label : string)
| create_exclusions (resource : pydict)
| update_exclusions (id : string) (resource : pydict)
| delete_exclusions (id : Z)
| create_download_client (resource : pydict)
| update_download_client (id : string) (resource : pydict)
| delete_download_client (id : Z).

Definition trace : Type := list event.

(** Make one call. *)
Definition emit (e : event) : M trace unit := fun t => (inr tt, t ++ [e]).

(** The mutating API calls among the events. *)
Definition is_api_call (e : event) : bool :=
  match e with
  | Log _ _ _ => false
  | _ => true
  end.

Definition api_calls (t : trace) : list event := filter is_api_call t.

(* ================================================================== *)
(** * Tags ([config/settings/tags.py])                                  *)
(* ================================================================== *)

Module SonarrTagsSettings.

(** [sonarr.TagResource], as returned by [TagApi.list_tag]. *)
Record TagResource : Type := { id : Z; label : string }.

(** [definitions] is a set of labels; the list is the set in its iteration
    order. *)
Record t : Type := { definitions : list string }.

(** The body of [for i, tag in enumerate(self.definitions)], with the
    local variable [changed] carried along. *)
Fixpoint update_loop (tree : string) (current_tags : dict string Z)
    (i : Z) (tags : list string) (changed : bool) : M trace bool :=
  match tags with
  | [] => ret changed
  | tag :: rest =>
      if dict_mem String.eqb tag current_tags then
        emit (Log DEBUG "%s.definitions[%i]: %s (exists)"
                [ArgStr tree; ArgInt i; ArgRepr tag]) ;;
        update_loop tree current_tags (i + 1) rest changed
      else
        emit (Log INFO "%s.definitions[%i]: %s -> (created)"
                [ArgStr tree; ArgInt i; ArgRepr tag]) ;;
        emit (create_tag tag) ;;
        update_loop tree current_tags (i + 1) rest true
  end.

(** [list_tag] is what [tag_api.list_tag()] returns. *)
Definition update_remote (self : t) (tree : string)
    (list_tag : list TagResource) (remote : t) (check_unmanaged : bool)
    : M trace bool :=
  let current_tags : dict string Z :=
    dict_of_items String.eqb (map (fun tag => (tag.(label), tag.(id))) list_tag) in
  match self.(definitions) with
  | [] => ret false
  | _ :: _ => update_loop tree current_tags 0 self.(definitions) false
  end.

(** [definitions] is the set of the listed labels: each label once, here in
    the order of its last listing. *)
Definition from_remote (list_tag : list TagResource) : t :=
  {| definitions := nodup string_dec (map label list_tag) |}.

(** *** Vocabulary of the specification *)

(** The label is absent from the listed remote tags. *)
Definition absent (list_tag : list TagResource) (tag : string) : bool :=
  negb (existsb (String.eqb tag) (map label list_tag)).

End SonarrTagsSettings.

(** The number of events of a trace that satisfy [p]. *)
Definition count_calls (p : event -> bool) (t : trace) : nat :=
  List.length (filter p t).

Definition is_create_tag (tag : string) (e : event) : bool :=
  match e with
  | create_tag l => String.eqb l tag
  | _ => false
  end.


(* ================================================================== *)
(** * List exclusions ([config/settings/lists/exclusions.py])           *)
(* ================================================================== *)

Module ListExclusion.

Record t : Type := { tmdb_id : Z; title : string; year : Z }.

(** [sonarr.ImportExclusionsResource]: the remote-assigned [id] and the
    attributes the remote map names. The class belongs to the generated API
    client; [to_dict] follows the remote names of [_remote_map]. *)
Record ImportExclusionsResource : Type := {
  id : Z;
  res_tmdb_id : Z;
  movie_title : string;
  movie_year : Z
}.

Definition to_dict (r : ImportExclusionsResource) : pydict :=
  [("id", PyInt r.(id)); ("tmdbId", PyInt r.(res_tmdb_id));
   ("movieTitle", PyStr r.(movie_title)); ("movieYear", PyInt r.(movie_year))]%string.

(** The entries of [_remote_map]: local name, remote name (all three have
    empty options). *)
Definition _remote_map : list (string * string) :=
  [("tmdb_id", "tmdbId"); ("title", "movieTitle"); ("year", "movieYear")]%string.

(** [getattr(self, name)] for the mapped names. *)
Definition getattr (self : t) (name : string) : pyval :=
  if String.eqb name "tmdb_id" then PyInt self.(tmdb_id)
  else if String.eqb name "title" then PyStr self.(title)
  else if String.eqb name "year" then PyInt self.(year)
  else PyNone.

(** Modelled from the spec: [get_create_remote_attrs] is inherited from the
    configuration base class, which is not among the sources. Section 4.1:
    for each mapping entry without [is_field], the top-level remote attribute
    is written directly, through the encoder if there is one, else as it is. *)
Definition get_create_remote_attrs (self : t) (tree : string)
    (remote_map : list (string * string)) : pydict :=
  dict_of_items String.eqb
    (map (fun e => (snd e, getattr self (fst e))) remote_map).

(** Modelled from the spec: [get_update_remote_attrs] is inherited from the
    configuration base class, which is not among the sources. Section 4.2:
    the mapping entries are visited in declaration order; a field whose local
    and remote values differ marks the result changed and is included with
    the local value; an equal field is included anyway under
    [set_unchanged]. *)
Definition get_update_remote_attrs (self : t) (tree : string) (remote : t)
    (remote_map : list (string * string)) (set_unchanged : bool)
    : bool * pydict :=
  let differs (e : string * string) :=
    negb (key_eqb (getattr self (fst e)) (getattr remote (fst e))) in
  (existsb differs remote_map,
   dict_of_items String.eqb
     (map (fun e => (snd e, getattr self (fst e)))
          (filter (fun e => (differs e || set_unchanged)%bool) remote_map))).

Definition _create_remote (self : t) (tree : string) : M trace unit :=
  emit (create_exclusions (get_create_remote_attrs self tree _remote_map)).

Definition _update_remote (self : t) (tree : string) (remote : t)
    (api_listexclusion : ImportExclusionsResource) : M trace bool :=
  let '(updated, updated_attrs) :=
    get_update_remote_attrs self tree remote _remote_map true in
  if updated then
    emit (update_exclusions (str_of_int api_listexclusion.(id))
            (dict_merge String.eqb (to_dict api_listexclusion) updated_attrs)) ;;
    ret true
  else ret false.

Definition _delete_remote (self : t) (listexclusion_id : Z) : M trace unit :=
  emit (delete_exclusions listexclusion_id).

(** *** Vocabulary of the specification *)

(** The remote attributes of an exclusion. *)
Definition remote_attrs (x : t) : pydict :=
  [("tmdbId", PyInt x.(tmdb_id)); ("movieTitle", PyStr x.(title));
   ("movieYear", PyInt x.(year))]%string.

(** Some mapped attribute of the two exclusions differs. *)
Definition differs (x y : t) : bool :=
  negb (Z.eqb x.(tmdb_id) y.(tmdb_id) && String.eqb x.(title) y.(title)
        && Z.eqb x.(year) y.(year)).

(** The field types of the class: [PositiveInt], [NonEmptyStr],
    [PositiveInt]. *)
Definition valid (x : t) : bool :=
  ((0 <? x.(tmdb_id)) && negb (String.eqb x.(title) "") && (0 <? x.(year)))%bool.

(** Modelled from the spec: [get_local_attrs] is inherited from the
    configuration base class, which is not among the sources. Section 4.1:
    for each mapping entry without [is_field], the top-level remote attribute
    is read directly, through the decoder if there is one, else as it is; an
    absent attribute is a [ConfigError]. The local names of a remote map are
    distinct. *)
Fixpoint get_local_attrs (remote_map : list (string * string))
    (remote_attrs : pydict) : result pydict :=
  match remote_map with
  | [] => inr []
  | e :: rest =>
      match dict_get String.eqb (snd e) remote_attrs with
      | None => inl SonarrConfigError
      | Some v =>
          match get_local_attrs rest remote_attrs with
          | inl err => inl err
          | inr attrs => inr ((fst e, v) :: attrs)
          end
      end
  end.

(** The class called on [attrs] as keyword arguments: the three fields are
    required and their types checked;
    [None] stands for pydantic's [ValidationError]. [to_dict] gives integers
    and strings; values of another shape do not reach the constructor from
    [_from_remote]. *)
Definition construct (attrs : pydict) : option t :=
  match dict_get String.eqb "tmdb_id"%string attrs,
        dict_get String.eqb "title"%string attrs,
        dict_get String.eqb "year"%string attrs with
  | Some (PyInt i), Some (PyStr s), Some (PyInt y) =>
      let x := {| tmdb_id := i; title := s; year := y |} in
      if valid x then Some x else None
  | _, _, _ => None
  end.

Definition _from_remote (api_listexclusion : ImportExclusionsResource)
    : option t :=
  match get_local_attrs _remote_map (to_dict api_listexclusion) with
  | inr attrs => construct attrs
  | inl _ => None
  end.

Definition eq_dec : forall x y : t, {x = y} + {x <> y}.
Proof. decide equality; auto using Z.eq_dec, string_dec. Defined.

End ListExclusion.

Module ListExclusionsSettings.

Import ListExclusion.

(** [definitions] is a set of exclusions; the list is the set in its
    iteration order. *)
Record t : Type := {
  delete_unmanaged : bool;
  definitions : list ListExclusion.t
}.

(** [{x.tmdb_id: x for x in xs}] for the API resources. *)
Definition api_by_tmdb_id (list_exclusions : list ImportExclusionsResource)
    : dict Z ImportExclusionsResource :=
  dict_of_items Z.eqb (map (fun r => (r.(res_tmdb_id), r)) list_exclusions).

(** [{x.tmdb_id: x for x in xs}] for the exclusions of a configuration. *)
Definition by_tmdb_id (xs : list ListExclusion.t) : dict Z ListExclusion.t :=
  dict_of_items Z.eqb (map (fun x => (x.(tmdb_id), x)) xs).

(** [f"{tree}.definitions[{i}]"] *)
Definition definitions_tree (tree : string) (i : Z) : string :=
  (tree ++ ".definitions[" ++ str_of_int i ++ "]")%string.

(** The body of [for i, listexclusion in enumerate(local_listexclusions.values())]. *)
Fixpoint update_loop (tree : string)
    (api_listexclusions : dict Z ImportExclusionsResource)
    (remote_listexclusions : dict Z ListExclusion.t)
    (i : Z) (values : list ListExclusion.t) (changed : bool) : M trace bool :=
  match values with
  | [] => ret changed
  | listexclusion :: rest =>
      let listexclusion_tree := definitions_tree tree i in
      if negb (dict_mem Z.eqb listexclusion.(tmdb_id) remote_listexclusions) then
        _create_remote listexclusion listexclusion_tree ;;
        update_loop tree api_listexclusions remote_listexclusions
          (i + 1) rest true
      else
        remote_listexclusion <-
          lift (dict_index Z.eqb listexclusion.(tmdb_id) remote_listexclusions) ;;
        api_listexclusion <-
          lift (dict_index Z.eqb listexclusion.(tmdb_id) api_listexclusions) ;;
        updated <-
          _update_remote listexclusion listexclusion_tree
            remote_listexclusion api_listexclusion ;;
        update_loop tree api_listexclusions remote_listexclusions
          (i + 1) rest (if updated then true else changed)
  end.

(** [list_exclusions] is what [ImportExclusionsApi.list_exclusions()]
    returns. *)
Definition update_remote (self : t) (tree : string)
    (list_exclusions : list ImportExclusionsResource) (remote : t)
    (check_unmanaged : bool) : M trace bool :=
  let api_listexclusions := api_by_tmdb_id list_exclusions in
  let local_listexclusions := by_tmdb_id self.(definitions) in
  let remote_listexclusions := by_tmdb_id remote.(definitions) in
  update_loop tree api_listexclusions remote_listexclusions 0
    (dict_values local_listexclusions) false.

(** The body of [for listexclusion in remote_listexclusions.values()], with
    the local variables [i] and [changed] carried along. *)
Fixpoint delete_loop (self : t) (tree : string)
    (api_listexclusions : dict Z ImportExclusionsResource)
    (local_listexclusions : dict Z ListExclusion.t)
    (i : Z) (values : list ListExclusion.t) (changed : bool) : M trace bool :=
  match values with
  | [] => ret changed
  | listexclusion :: rest =>
      if negb (dict_mem Z.eqb listexclusion.(tmdb_id) local_listexclusions) then
        let listexclusion_tree := definitions_tree tree i in
        if self.(delete_unmanaged) then
          emit (Log INFO "%s: (...) -> (deleted)" [ArgStr listexclusion_tree]) ;;
          api_listexclusion <-
            lift (dict_index Z.eqb listexclusion.(tmdb_id) api_listexclusions) ;;
          _delete_remote listexclusion api_listexclusion.(id) ;;
          delete_loop self tree api_listexclusions local_listexclusions
            (i - -1) rest true
        else
          emit (Log DEBUG "%s: (...) (unmanaged)" [ArgStr listexclusion_tree]) ;;
          delete_loop self tree api_listexclusions local_listexclusions
            (i - -1) rest changed
      else
        delete_loop self tree api_listexclusions local_listexclusions
          i rest changed
  end.

Definition delete_remote (self : t) (tree : string)
    (list_exclusions : list ImportExclusionsResource) (remote : t)
    : M trace bool :=
  let api_listexclusions := api_by_tmdb_id list_exclusions in
  let local_listexclusions := by_tmdb_id self.(definitions) in
  let remote_listexclusions := by_tmdb_id remote.(definitions) in
  delete_loop self tree api_listexclusions local_listexclusions (-1)
    (dict_values remote_listexclusions) false.

(** *** Vocabulary of the specification *)

(** Some exclusion of [xs] has the [tmdb_id] of [x]. *)
Definition keyed_in (xs : list ListExclusion.t) (x : ListExclusion.t) : bool :=
  existsb (Z.eqb x.(tmdb_id)) (map tmdb_id xs).

(** The resource the fresh listing holds for a [tmdb_id]. *)
Definition api_resource (list_exclusions : list ImportExclusionsResource)
    (k : Z) : option ImportExclusionsResource :=
  dict_get Z.eqb k (api_by_tmdb_id list_exclusions).

(** The remote-assigned id of an exclusion, by the fresh listing. *)
Definition remote_id (list_exclusions : list ImportExclusionsResource)
    (x : ListExclusion.t) : option Z :=
  option_map id (api_resource list_exclusions x.(tmdb_id)).

(** The API calls [update_remote] owes to one local exclusion: a creation
    when no remote exclusion has its [tmdb_id]; otherwise an update of the
    listed resource when a mapped attribute differs from the remote exclusion
    with that [tmdb_id]; otherwise nothing. *)
Definition update_calls_for (list_exclusions : list ImportExclusionsResource)
    (remote_definitions : list ListExclusion.t) (x : ListExclusion.t)
    : list event :=
  match find (fun r => Z.eqb x.(tmdb_id) r.(tmdb_id)) remote_definitions with
  | None => [create_exclusions (remote_attrs x)]
  | Some r =>
      match api_resource list_exclusions x.(tmdb_id) with
      | Some a =>
          if differs x r
          then [update_exclusions (str_of_int a.(id))
                  (("id"%string, PyInt a.(id)) :: remote_attrs x)]
          else []
      | None => []
      end
  end.

(** The integers [i], [i + 1], ... ([n] of them). *)
Fixpoint counted_from (i : Z) (n : nat) : list Z :=
  match n with
  | O => []
  | S n' => i :: counted_from (i + 1) n'
  end.

(** The tree paths the deletion pass logs, in order. *)
Definition logged_trees (t : trace) : list string :=
  flat_map (fun e => match e with
                     | Log _ _ [ArgStr tree] => [tree]
                     | _ => []
                     end) t.

(** The exclusion API call an event is, by the [tmdbId] of its resource. *)
Definition call_tmdb_id (e : event) : option pyval :=
  match e with
  | create_exclusions r | update_exclusions _ r =>
      dict_get String.eqb "tmdbId"%string r
  | _ => None
  end.

(** The generator [ListExclusion._from_remote(r) for r in listing]. *)
Fixpoint from_remote_each (list_exclusions : list ImportExclusionsResource)
    : option (list ListExclusion.t) :=
  match list_exclusions with
  | [] => Some []
  | r :: rest =>
      match _from_remote r with
      | None => None
      | Some x =>
          match from_remote_each rest with
          | None => None
          | Some xs => Some (x :: xs)
          end
      end
  end.

(** [definitions] is the set of the exclusions read: each one once.
    [delete_unmanaged] keeps its default. *)
Definition from_remote (list_exclusions : list ImportExclusionsResource)
    : option t :=
  match from_remote_each list_exclusions with
  | None => None
  | Some xs =>
      Some {| delete_unmanaged := false;
              definitions := nodup ListExclusion.eq_dec xs |}
  end.

(** The kinds of API call of the two passes. *)
Definition is_create_or_update (e : event) : bool :=
  match e with
  | create_exclusions _ | update_exclusions _ _ => true
  | _ => false
  end.

Definition is_log_or_delete (e : event) : bool :=
  match e with
  | Log _ _ _ | delete_exclusions _ => true
  | _ => false
  end.

End ListExclusionsSettings.

(* ================================================================== *)
(** * Newznab categories ([config/settings/indexers/util.py])           *)
(* ================================================================== *)

Module NabCategory.

Inductive t : Type :=
| TV | TV_WEBDL | TV_FOREIGN | TV_SD | TV_HD | TV_UHD | TV_OTHER
| TV_SPORT | TV_ANIME | TV_DOCUMENTARY | TV_X265.

(** The values a member is declared with: its category code, then its
    names. *)
Definition values (c : t) : Z * list string :=
  match c with
  | TV => (5000, ["TV"])
  | TV_WEBDL => (5010, ["TV/WEB-DL"])
  | TV_FOREIGN => (5020, ["TV/Foreign"])
  | TV_SD => (5030, ["TV/SD"])
  | TV_HD => (5040, ["TV/HD"])
  | TV_UHD => (5045, ["TV/UHD"])
  | TV_OTHER => (5050, ["TV/Other"])
  | TV_SPORT => (5060, ["TV/Sport"; "TV/Sports"])
  | TV_ANIME => (5070, ["TV/Anime"])
  | TV_DOCUMENTARY => (5080, ["TV/Documentary"])
  | TV_X265 => (5090, ["TV/x265"])
  end%string.

(** The members in declaration order. *)
Definition members : list t :=
  [TV; TV_WEBDL; TV_FOREIGN; TV_SD; TV_HD; TV_UHD; TV_OTHER;
   TV_SPORT; TV_ANIME; TV_DOCUMENTARY; TV_X265].

(** [c.value]: the first declared value of a multi-value enumeration
    member. *)
Definition value (c : t) : Z := fst (values c).

(** [cls(v)] for an integer [v]: the member declared with [v] among its
    values, or [ValueError] ([None] here) when there is none. Only the code
    of a member is an integer. *)
Definition of_value (v : Z) : option t :=
  find (fun c => Z.eqb (value c) v) members.

(** [Union[Self, int]]: a member, or a bare category code. *)
Definition category : Type := (t + Z)%type.

Definition decode (v : Z) : category :=
  match of_value v with
  | Some c => inl c
  | None => inr v
  end.

Definition encode (v : category) : Z :=
  match v with
  | inr z => z
  | inl c => value c
  end.

Definition eq_dec : forall x y : t, {x = y} + {x <> y}.
Proof. decide equality. Defined.

Definition category_eq_dec : forall x y : category, {x = y} + {x <> y}.
Proof. decide equality; auto using Z.eq_dec, eq_dec. Defined.

End NabCategory.

(* ================================================================== *)
(** * Newznab indexer ([config/settings/indexers/usenet/newznab.py])    *)
(* ================================================================== *)

Module NewznabIndexer.

Import NabCategory.

(** The encoder of [categories] and [anime_categories] in [_remote_map]:
    [sorted(NabCategory.encode(c) for c in v)]. *)
Definition categories_encoder (v : list category) : list Z :=
  sorted (map encode v).

(** The validator of [categories] and [anime_categories]: an integer is
    decoded, a member is kept; the result is a set, each value once. *)
Definition validate_categories (value : list category) : list category :=
  nodup category_eq_dec
    (map (fun c => match c with
                   | inr z => decode z
                   | inl _ => c
                   end) value).

(** The decoder of [additional_parameters]: [v or None]. *)
Definition additional_parameters_decoder (v : option string) : option string :=
  match v with
  | Some s => if String.eqb s "" then None else Some s
  | None => None
  end.

End NewznabIndexer.

(* ================================================================== *)
(** * Download clients ([config/settings/download_clients/base.py])     *)
(* ================================================================== *)

Module DownloadClient.

(** [sonarr.DownloadClientResource]: the attributes the base class reads,
    and the dictionary [to_dict()] returns. *)
Record DownloadClientResource : Type := {
  id : Z;
  implementation : string;
  to_dict : pydict
}.

Record t : Type := {
  enable : bool;
  remove_completed_downloads : bool;
  remove_failed_downloads : bool;
  priority : Z;
  tags : list string;
  _implementation : string
}.

Definition _get_api_schema (self : t) (schemas : list DownloadClientResource)
    : result pydict :=
  match
    find (fun s => String.eqb (lower s.(implementation))
                              (lower self.(_implementation))) schemas
  with
  | None => inl StopIteration
  | Some s =>
      inr (filter
             (fun kv => negb (existsb (String.eqb (fst kv)) ["id"; "name"]%string))
             s.(to_dict))
  end.

(** [{field["name"]: field["value"] for field in fields}], one field at a
    time: the key is evaluated, then the value, then the entry is stored,
    which needs a hashable key. *)
Fixpoint field_values_loop (fields : list pyval) (acc : dict pyval pyval)
    : result (dict pyval pyval) :=
  match fields with
  | [] => inr acc
  | field :: rest =>
      match getitem field "name" with
      | inl e => inl e
      | inr name =>
          match getitem field "value" with
          | inl e => inl e
          | inr value =>
              if hashable name
              then field_values_loop rest (dict_set key_eqb name value acc)
              else inl TypeError
          end
      end
  end.

Definition field_values_of (fields : pyval) : result (dict pyval pyval) :=
  match iter fields with
  | inl e => inl e
  | inr l => field_values_loop l []
  end.

(** [({**f, "value": field_values[f["name"]]} if f["name"] in field_values
     else f)] *)
Definition merge_field (field_values : dict pyval pyval) (f : pyval)
    : result pyval :=
  match getitem f "name" with
  | inl e => inl e
  | inr name =>
      if hashable name then
        if dict_mem key_eqb name field_values then
          match f with
          | PyDict d =>
              match dict_index key_eqb name field_values with
              | inl e => inl e
              | inr v => inr (PyDict (dict_set String.eqb "value"%string v d))
              end
          | _ => inl TypeError
          end
        else inr f
      else inl TypeError
  end.

(** The list comprehension over the remote-side field list. *)
Fixpoint merge_fields_loop (field_values : dict pyval pyval) (fs : list pyval)
    : result (list pyval) :=
  match fs with
  | [] => inr []
  | f :: rest =>
      match merge_field field_values f with
      | inl e => inl e
      | inr f' =>
          match merge_fields_loop field_values rest with
          | inl e => inl e
          | inr rest' => inr (f' :: rest')
          end
      end
  end.

Definition merge_fields (field_values : dict pyval pyval) (fields : pyval)
    : result (list pyval) :=
  match iter fields with
  | inl e => inl e
  | inr l => merge_fields_loop field_values l
  end.

Definition bind_result {A B : Type} (r : result A) (f : A -> result B)
    : result B :=
  match r with
  | inl e => inl e
  | inr a => f a
  end.

Section Projection.
(** The two projections of the configuration base class, applied to the
    remote map of the download client ([_get_base_remote_map(tag_ids) +
    _remote_map]); the base class is not among the sources, and the remote
    map of a concrete download client is its own. *)
Variable get_create_remote_attrs : t -> string -> dict string Z -> pydict.
Variable get_update_remote_attrs :
  t -> string -> t -> dict string Z -> bool -> bool * pydict.

(** The request payload [_create_remote] builds. *)
Definition create_remote_attrs (self : t) (tree : string)
    (api_downloadclient_schemas : list DownloadClientResource)
    (tag_ids : dict string Z) (downloadclient_name : string)
    : result pydict :=
  bind_result (_get_api_schema self api_downloadclient_schemas)
    (fun api_schema =>
  let set_attrs := get_create_remote_attrs self tree tag_ids in
  bind_result (dict_index String.eqb "fields"%string set_attrs)
    (fun set_fields =>
  bind_result (field_values_of set_fields)
    (fun field_values =>
  bind_result (dict_index String.eqb "fields"%string api_schema)
    (fun schema_fields =>
  bind_result (merge_fields field_values schema_fields)
    (fun merged =>
  let set_attrs :=
    dict_set String.eqb "fields"%string (PyList merged) set_attrs in
  inr (dict_merge String.eqb
         (dict_merge String.eqb
            [("name"%string, PyStr downloadclient_name)] api_schema)
         set_attrs)))))).

Definition _create_remote (self : t) (tree : string)
    (api_downloadclient_schemas : list DownloadClientResource)
    (tag_ids : dict string Z) (downloadclient_name : string)
    : M trace unit :=
  remote_attrs <-
    lift (create_remote_attrs self tree api_downloadclient_schemas
            tag_ids downloadclient_name) ;;
  emit (create_download_client remote_attrs).

(** The request payload [_update_remote] builds from the attributes the
    change detector returned. *)
Definition update_remote_attrs (updated_attrs : pydict)
    (api_downloadclient : DownloadClientResource) : result pydict :=
  bind_result
    (if dict_mem String.eqb "fields"%string updated_attrs then
       bind_result (dict_index String.eqb "fields"%string updated_attrs)
         (fun upd_fields =>
       bind_result (field_values_of upd_fields)
         (fun updated_fields =>
       bind_result
         (dict_index String.eqb "fields"%string api_downloadclient.(to_dict))
         (fun api_fields =>
       bind_result (merge_fields updated_fields api_fields)
         (fun merged =>
       inr (dict_set String.eqb "fields"%string (PyList merged)
              updated_attrs)))))
     else inr updated_attrs)
    (fun updated_attrs =>
       inr (dict_merge String.eqb api_downloadclient.(to_dict) updated_attrs)).

Definition _update_remote (self : t) (tree : string) (remote : t)
    (tag_ids : dict string Z) (api_downloadclient : DownloadClientResource)
    : M trace bool :=
  let '(updated, updated_attrs) :=
    get_update_remote_attrs self tree remote tag_ids true in
  if updated then
    remote_attrs <- lift (update_remote_attrs updated_attrs api_downloadclient) ;;
    emit (update_download_client (str_of_int api_downloadclient.(id))
            remote_attrs) ;;
    ret true
  else ret false.
End Projection.

Definition _delete_remote (self : t) (downloadclient_id : Z) : M trace unit :=
  emit (delete_download_client downloadclient_id).

(** The [tags] entry of [_get_base_remote_map]. Its decoder,
    [set(tag for tag, tag_id in tag_ids.items() if tag_id in v)]: *)
Definition tags_decoder (tag_ids : dict string Z) (v : list Z) : list string :=
  map fst (filter (fun kv => existsb (Z.eqb (snd kv)) v) tag_ids).

(** The generator [tag_ids[tag] for tag in v]. *)
Fixpoint tag_ids_of (tag_ids : dict string Z) (v : list string)
    : result (list Z) :=
  match v with
  | [] => inr []
  | tag :: rest =>
      match dict_index String.eqb tag tag_ids with
      | inl e => inl e
      | inr i =>
          match tag_ids_of tag_ids rest with
          | inl e => inl e
          | inr l => inr (i :: l)
          end
      end
  end.

(** Its encoder, [sorted(tag_ids[tag] for tag in v)]. *)
Definition tags_encoder (tag_ids : dict string Z) (v : list string)
    : result (list Z) :=
  bind_result (tag_ids_of tag_ids v) (fun l => inr (sorted l)).

(** *** Vocabulary of the specification *)

(** No schema of the catalog is for the implementation of [self]. *)
Definition unsupported (self : t) (schemas : list DownloadClientResource)
    : Prop :=
  forall s, In s schemas ->
            lower s.(implementation) <> lower self.(_implementation).



End DownloadClient.

(* ================================================================== *)
(** * Secrets ([secrets.py]) and instance configuration ([config/__init__.py]) *)
(* ================================================================== *)

Module SonarrSecrets.

(** What [get_from_url] can raise: an exception of [Py.exn], or the
    [UnauthorizedException] of the generated API client. *)
Inductive raised : Type :=
| Exn (e : exn)
| UnauthorizedException.

(** [HTTPStatus.UNAUTHORIZED] *)
Definition UNAUTHORIZED : Z := 401.

Record t : Type := {
  hostname : string;
  port : Z;
  protocol : string;
  url_base : option string;
  api_key : pyval;
  version : string
}.

(** [s.lstrip(c)], [s.rstrip(c)] and [s.strip(c)] for one character. *)
Fixpoint lstrip (c : ascii) (s : string) : string :=
  match s with
  | EmptyString => EmptyString
  | String a s' => if Ascii.eqb a c then lstrip c s' else s
  end.

Fixpoint rstrip (c : ascii) (s : string) : string :=
  match s with
  | EmptyString => EmptyString
  | String a s' =>
      match rstrip c s' with
      | EmptyString => if Ascii.eqb a c then EmptyString else String a EmptyString
      | r => String a r
      end
  end.

Definition strip (c : ascii) (s : string) : string := rstrip c (lstrip c s).

(** The validator of [url_base], the same in [SonarrSecrets] and in
    [SonarrInstanceConfig]:
    [f"/{value.strip('/')}" if value and value.strip("/") else None]. *)
Definition validate_url_base (value : option string) : option string :=
  match value with
  | None => None
  | Some v =>
      if (negb (String.eqb v "") && negb (String.eqb (strip "/" v) ""))%bool
      then Some ("/" ++ strip "/" v)%string
      else None
  end.

(** [f"{protocol}://{hostname}:{port}{url_base or ''}"] *)
Definition _get_host_url (protocol hostname : string) (port : Z)
    (url_base : option string) : string :=
  (protocol ++ "://" ++ hostname ++ ":" ++ str_of_int port
   ++ match url_base with
      | Some u => if String.eqb u "" then "" else u
      | None => ""
      end)%string.

(** The property [host_url]. *)
Definition host_url (self : t) : string :=
  _get_host_url self.(protocol) self.(hostname) self.(port) self.(url_base).

(** *** Vocabulary: the first and the last character of a string *)

Definition starts_with (c : ascii) (s : string) : bool :=
  match s with
  | EmptyString => false
  | String a _ => Ascii.eqb a c
  end.

Fixpoint ends_with (c : ascii) (s : string) : bool :=
  match s with
  | EmptyString => false
  | String a s' =>
      match s' with
      | EmptyString => Ascii.eqb a c
      | String _ _ => ends_with c s'
      end
  end.

(** The API key when it is truthy: neither [None] nor empty. *)
Definition truthy (api_key : option string) : option string :=
  match api_key with
  | Some k => if String.eqb k "" then None else Some k
  | None => None
  end.

Section Collaborators.
(** [api_get(host_url, path)] returns the parsed JSON document or raises;
    [get_system_status host_url api_key] is the version
    [SystemApi.get_system_status()] reports through a client opened on
    [host_url] with [api_key], or what that raises. *)
Variable api_get : string -> string -> result pyval.
Variable get_system_status : string -> pyval -> raised + string.

(** The class is built from the keyword arguments; the validator of
    [url_base] runs on construction. The checks of the other field types
    ([Port], [SonarrProtocol], [ArrApiKey]) belong to modules that are not
    among the sources. *)
Definition get_from_url (hostname : string) (port : Z) (protocol : string)
    (url_base : option string) (api_key : option string) : raised + t :=
  let url_base := validate_url_base url_base in
  let host_url := _get_host_url protocol hostname port url_base in
  let retrieved : raised + pyval :=
    match truthy api_key with
    | None =>
        match api_get host_url "/initialize.json" with
        | inl (SonarrAPIError status_code) =>
            if Z.eqb status_code UNAUTHORIZED
            then inl (Exn SonarrSecretsUnauthorizedError)
            else inl (Exn (SonarrAPIError status_code))
        | inl e => inl (Exn e)
        | inr initialize_json =>
            match getitem initialize_json "apiKey" with
            | inl e => inl (Exn e)
            | inr k => inr k
            end
        end
    | Some k => inr (PyStr k)
    end in
  match retrieved with
  | inl e => inl e
  | inr api_key =>
      match get_system_status host_url api_key with
      | inl UnauthorizedException => inl (Exn SonarrSecretsUnauthorizedError)
      | inl e => inl e
      | inr system_status_version =>
          inr {| hostname := hostname;
                 port := port;
                 protocol := protocol;
                 url_base := validate_url_base url_base;
                 api_key := api_key;
                 version := system_status_version |}
      end
  end.

(** The fields of the instance configuration that [get] reads. *)
Record SonarrConfig : Type := {
  config_hostname : string;
  config_port : Z;
  config_protocol : string;
  config_url_base : option string;
  config_api_key : option string
}.

Definition get (config : SonarrConfig) : raised + t :=
  get_from_url config.(config_hostname) config.(config_port)
    config.(config_protocol) config.(config_url_base)
    (truthy config.(config_api_key)).
End Collaborators.

End SonarrSecrets.

(* ================================================================== *)
(** * Concrete configurations used by the examples                      *)
(* ================================================================== *)

Module Examples.

Import SonarrSettings.

(** A section that reports the change it is configured with and records its
    name in the world. *)
Definition recording_update (s : SectionName) (self : bool) (tree : string)
    (secrets : unit) (remote : bool) (check_unmanaged : bool)
    : M (list SectionName) bool :=
  fun w => (inr self, w ++ [s]).

Definition recording_delete (s : SectionName) (self : bool) (tree : string)
    (secrets : unit) (remote : bool) : M (list SectionName) bool :=
  fun w => (inr self, w ++ [s]).

(** Settings in which only one section reports a change. *)
Definition tags_changed : SonarrSettings.t (fun _ => bool) :=
  {| media_management := false; profiles := false; quality := false;
     custom_formats := false; indexers := false; download_clients := false;
     metadata := false; tags := true; general := false; ui := false |}.

Definition profiles_changed : SonarrSettings.t (fun _ => bool) :=
  {| media_management := false; profiles := true; quality := false;
     custom_formats := false; indexers := false; download_clients := false;
     metadata := false; tags := false; general := false; ui := false |}.

(** Tags: two local labels, one of them listed remotely. *)
Definition local_tags : SonarrTagsSettings.t :=
  {| SonarrTagsSettings.definitions := ["anime"; "movies"]%string |}.

Definition listed_tags : list SonarrTagsSettings.TagResource :=
  [{| SonarrTagsSettings.id := 1; SonarrTagsSettings.label := "movies" |}].

(** Exclusions: [ex_a] and [ex_b] share their [tmdb_id] and differ in title
    and year. *)
Definition ex_a : ListExclusion.t :=
  {| ListExclusion.tmdb_id := 1; ListExclusion.title := "A";
     ListExclusion.year := 2000 |}.

Definition ex_b : ListExclusion.t :=
  {| ListExclusion.tmdb_id := 1; ListExclusion.title := "B";
     ListExclusion.year := 2001 |}.

Definition ex_c : ListExclusion.t :=
  {| ListExclusion.tmdb_id := 2; ListExclusion.title := "C";
     ListExclusion.year := 2002 |}.

Definition ex_d : ListExclusion.t :=
  {| ListExclusion.tmdb_id := 3; ListExclusion.title := "D";
     ListExclusion.year := 2003 |}.

Definition res_b : ListExclusion.ImportExclusionsResource :=
  {| ListExclusion.id := 10; ListExclusion.res_tmdb_id := 1;
     ListExclusion.movie_title := "B"; ListExclusion.movie_year := 2001 |}.

Definition res_c : ListExclusion.ImportExclusionsResource :=
  {| ListExclusion.id := 11; ListExclusion.res_tmdb_id := 2;
     ListExclusion.movie_title := "C"; ListExclusion.movie_year := 2002 |}.

Definition res_d : ListExclusion.ImportExclusionsResource :=
  {| ListExclusion.id := 12; ListExclusion.res_tmdb_id := 3;
     ListExclusion.movie_title := "D"; ListExclusion.movie_year := 2003 |}.

Definition exclusions (delete_unmanaged : bool) (xs : list ListExclusion.t)
    : ListExclusionsSettings.t :=
  {| ListExclusionsSettings.delete_unmanaged := delete_unmanaged;
     ListExclusionsSettings.definitions := xs |}.

(** Download clients: a client of one implementation, and the schema the
    remote side offers for another and for the same. *)
Definition qbittorrent_client : DownloadClient.t :=
  {| DownloadClient.enable := true;
     DownloadClient.remove_completed_downloads := true;
     DownloadClient.remove_failed_downloads := true;
     DownloadClient.priority := 1;
     DownloadClient.tags := [];
     DownloadClient._implementation := "QBittorrent" |}.

Definition field (name : string) (value : pyval) (order : Z) : pyval :=
  PyDict [("order", PyInt order); ("name", PyStr name); ("value", value)]%string.

Definition transmission_schema : DownloadClient.DownloadClientResource :=
  {| DownloadClient.id := 0;
     DownloadClient.implementation := "Transmission";
     DownloadClient.to_dict :=
       [("id", PyInt 0); ("name", PyNone);
        ("implementation", PyStr "Transmission");
        ("fields", PyList [field "host" (PyStr "localhost") 0;
                           field "port" (PyInt 9091) 1])]%string |}.

Definition qbittorrent_schema : DownloadClient.DownloadClientResource :=
  {| DownloadClient.id := 0;
     DownloadClient.implementation := "qBittorrent";
     DownloadClient.to_dict :=
       [("id", PyInt 0); ("name", PyNone);
        ("implementation", PyStr "qBittorrent");
        ("fields", PyList [field "host" (PyStr "localhost") 0;
                           field "port" (PyInt 8080) 1;
                           field "useSsl" (PyBool false) 2])]%string |}.

(** The live resource of a configured client. *)
Definition qbittorrent_live : DownloadClient.DownloadClientResource :=
  {| DownloadClient.id := 7;
     DownloadClient.implementation := "qBittorrent";
     DownloadClient.to_dict :=
       [("id", PyInt 7); ("name", PyStr "seedbox");
        ("implementation", PyStr "qBittorrent");
        ("fields", PyList [field "host" (PyStr "localhost") 0;
                           field "port" (PyInt 8080) 1;
                           field "useSsl" (PyBool false) 2])]%string |}.

(** What the projections compute for the client: its host is set. *)
Definition computed_attrs : pydict :=
  [("enable", PyBool true);
   ("fields", PyList [PyDict [("name", PyStr "host");
                              ("value", PyStr "seedbox.example")]])]%string.

Definition get_create_attrs (self : DownloadClient.t) (tree : string)
    (tag_ids : dict string Z) : pydict := computed_attrs.


End Examples.

(** Further inputs, for the properties beyond the claims. *)
Module Scenarios.

Import SonarrSettings.

(** Sections that record their name; the indexers section fails on a server
    error, the others report no change. *)
Definition failing_update (s : SectionName) (self : bool) (tree : string)
    (secrets : unit) (remote : bool) (check_unmanaged : bool)
    : M (list SectionName) bool :=
  fun w =>
    match s with
    | Indexers => (inl (SonarrAPIError 500), w ++ [s])
    | _ => (inr self, w ++ [s])
    end.

Definition failing_delete (s : SectionName) (self : bool) (tree : string)
    (secrets : unit) (remote : bool) : M (list SectionName) bool :=
  fun w =>
    match s with
    | Indexers => (inl (SonarrAPIError 500), w ++ [s])
    | _ => (inr self, w ++ [s])
    end.

(** The listing after the tag created for [Examples.local_tags] exists. *)
Definition listed_tags_after : list SonarrTagsSettings.TagResource :=
  [{| SonarrTagsSettings.id := 1; SonarrTagsSettings.label := "movies" |};
   {| SonarrTagsSettings.id := 2; SonarrTagsSettings.label := "anime" |}].

(** Tag ids as the tags section leaves them. *)
Definition tag_ids : dict string Z :=
  [("movies", 1); ("anime", 2); ("kids", 3)]%string.

(** What the projections compute for a client without implementation
    fields. *)
Definition attrs_without_fields : pydict := [("enable"%string, PyBool true)].

Definition get_create_attrs_without_fields (self : DownloadClient.t)
    (tree : string) (tag_ids : dict string Z) : pydict := attrs_without_fields.

(** A Sonarr instance behind a reverse proxy. With the right key it reports
    its version; without a key, [/initialize.json] is refused. *)
Definition refusing_api_get (host_url path : string) : result pyval :=
  inl (SonarrAPIError 401).

Definition open_api_get (host_url path : string) : result pyval :=
  inr (PyDict [("apiKey"%string, PyStr "0123456789abcdef0123456789abcdef")]).

Definition system_status (host_url : string) (api_key : pyval)
    : SonarrSecrets.raised + string :=
  if key_eqb api_key (PyStr "0123456789abcdef0123456789abcdef")
  then inr "4.0.0.700"%string
  else inl SonarrSecrets.UnauthorizedException.



End Scenarios.

(* ================================================================== *)
(** * Properties                                                        *)
(* ================================================================== *)

(** ** The monad and list displays *)

Lemma runs_cons_inv {W A : Type} (c : M W A) cs w l w' :
  runs (c :: cs) w l w' ->
  exists a w1 l1, c w = (inr a, w1) /\ runs cs w1 l1 w' /\ l = a :: l1.
Proof.
  intros H. inversion H; subst.
  eexists _, _, _. split; [eassumption|]. split; [eassumption|reflexivity].
Qed.

Lemma list_display_runs {W A : Type} (es : list (M W A)) :
  forall w l w', list_display es w = (inr l, w') <-> runs es w l w'.
Proof.
  induction es as [|e es IH]; intros w l w'; simpl.
  - unfold ret. split; intros H.
    + inversion H. constructor.
    + inversion H. reflexivity.
  - unfold bind at 1. split.
    + destruct (e w) as [[x|a] w1] eqn:He; [discriminate|].
      unfold bind, ret.
      destruct (list_display es w1) as [[x|l1] w2] eqn:Hl; [discriminate|].
      intros H. inversion H; subst.
      econstructor; [eassumption|]. now apply IH.
    + intros H. apply runs_cons_inv in H.
      destruct H as (a & w1 & l1 & He & Hr & ->).
      rewrite He. unfold bind, ret.
      apply IH in Hr. now rewrite Hr.
Qed.

Lemma runs_length {W A : Type} (es : list (M W A)) w l w' :
  runs es w l w' -> List.length l = List.length es.
Proof. induction 1; simpl; congruence. Qed.

Lemma any_true_iff (bs : list bool) : any bs = true <-> In true bs.
Proof.
  unfold any. rewrite existsb_exists. split.
  - intros [b [Hin Hb]]. now subst.
  - intros Hin. now exists true.
Qed.

(** An exception of an element of a list display leaves the display at once:
    the later elements are not evaluated. *)
Lemma list_display_raises {W A : Type} (e : M W A) (es : list (M W A)) w x w' :
  e w = (inl x, w') -> list_display (e :: es) w = (inl x, w').
Proof. intros H. simpl. unfold bind. now rewrite H. Qed.

(** ** Settings orchestrator *)

Section OrchestratorFacts.
Import SonarrSettings.
Context {World Secrets : Type} {Cfg : SectionName -> Type}.
Variable upd :
  forall s, Cfg s -> string -> Secrets -> Cfg s -> bool -> M World bool.
Variable del :
  forall s, Cfg s -> string -> Secrets -> Cfg s -> M World bool.

Lemma update_remote_unfold self tree secrets remote cu :
  SonarrSettings.update_remote upd self tree secrets remote cu =
  bind (list_display
          (map (update_section upd self tree secrets remote cu) update_order))
       (fun bs => ret (any bs)).
Proof. reflexivity. Qed.

Lemma delete_remote_unfold self tree secrets remote :
  SonarrSettings.delete_remote del self tree secrets remote =
  bind (list_display
          (map (delete_section del self tree secrets remote) delete_order))
       (fun bs => ret (any bs)).
Proof. reflexivity. Qed.

Lemma any_display_runs (cs : list (M World bool)) w b w' :
  bind (list_display cs) (fun bs => ret (any bs)) w = (inr b, w') <->
  exists bs, runs cs w bs w' /\ (b = true <-> In true bs).
Proof.
  unfold bind. destruct (list_display cs w) as [[x|bs] w1] eqn:Hd.
  - split; [discriminate|].
    intros [bs [Hr _]]. apply list_display_runs in Hr. congruence.
  - unfold ret. split.
    + intros H. inversion H; subst. exists bs. split.
      * now apply list_display_runs.
      * apply any_true_iff.
    + intros [bs' [Hr Hb]]. apply list_display_runs in Hr.
      assert (bs' = bs /\ w' = w1) as [-> ->] by (split; congruence).
      f_equal. f_equal. rewrite <- any_true_iff in Hb.
      destruct b, (any bs); try reflexivity.
      * destruct Hb as [Hb _]. discriminate (Hb eq_refl).
      * destruct Hb as [_ Hb]. discriminate (Hb eq_refl).
Qed.

(** C1. [update_remote] returns [b] normally exactly when the ten section
    updates, run one after the other in the order tags, quality,
    custom_formats, download_clients, indexers, media_management, profiles,
    metadata, general, ui, each on the world the previous one left and
    whatever the previous ones returned, all return normally; and [b] is
    [True] if and only if one of them returned [True]. *)
Theorem update_remote_order_and_aggregation :
  forall self tree secrets remote check_unmanaged w b w',
    SonarrSettings.update_remote upd self tree secrets remote check_unmanaged w
      = (inr b, w') <->
    exists bs,
      runs (map (update_section upd self tree secrets remote check_unmanaged)
                [Tags; Quality; CustomFormats; DownloadClients; Indexers;
                 MediaManagement; Profiles; Metadata; General; UI])
           w bs w'
      /\ List.length bs = 10%nat
      /\ (b = true <-> In true bs).
Proof.
  intros. rewrite update_remote_unfold, any_display_runs.
  split; intros [bs [Hr Hb]]; exists bs.
  - split; [exact Hr|]. split; [|exact Hb].
    apply runs_length in Hr. exact Hr.
  - split; [exact Hr | apply Hb].
Qed.

(** C2. [delete_remote] returns [b] normally exactly when the ten section
    deletion passes, run one after the other in the order profiles,
    indexers, download_clients, media_management, tags, custom_formats,
    quality, metadata, general, ui, all return normally; indexers come
    before download_clients; and [b] is [True] if and only if one of the
    passes returned [True]. *)
Theorem delete_remote_order_and_aggregation :
  forall self tree secrets remote w b w',
    (SonarrSettings.delete_remote del self tree secrets remote w = (inr b, w') <->
     exists bs,
       runs (map (delete_section del self tree secrets remote)
                 [Profiles; Indexers; DownloadClients; MediaManagement; Tags;
                  CustomFormats; Quality; Metadata; General; UI])
            w bs w'
       /\ List.length bs = 10%nat
       /\ (b = true <-> In true bs))
    /\ (exists before after,
          delete_order = before ++ Indexers :: after
          /\ In DownloadClients after /\ ~ In DownloadClients before
          /\ ~ In Indexers after).
Proof.
  intros. split.
  - rewrite delete_remote_unfold, any_display_runs.
    split; intros [bs [Hr Hb]]; exists bs.
    + split; [exact Hr|]. split; [|exact Hb].
      apply runs_length in Hr. exact Hr.
    + split; [exact Hr | apply Hb].
  - exists [Profiles],
      [DownloadClients; MediaManagement; Tags; CustomFormats; Quality;
       Metadata; General; UI].
    split; [reflexivity|]. split; [simpl; auto|].
    split; simpl; intuition discriminate.
Qed.
End OrchestratorFacts.

(** With recording sections and a change reported by the first one only, the
    world after [update_remote] lists the ten sections in the update order. *)
Lemma update_remote_order_witness :
  exists bs,
    runs (map (SonarrSettings.update_section Examples.recording_update
                 Examples.tags_changed "sonarr.settings" tt
                 Examples.tags_changed false)
              SonarrSettings.update_order)
         [] bs SonarrSettings.update_order
    /\ List.length bs = 10%nat
    /\ (true = true <-> In true bs).
Proof.
  apply (proj1 (update_remote_order_and_aggregation Examples.recording_update
                  Examples.tags_changed "sonarr.settings" tt
                  Examples.tags_changed false [] true
                  SonarrSettings.update_order)).
  reflexivity.
Defined.

Lemma delete_remote_order_witness :
  exists bs,
    runs (map (SonarrSettings.delete_section Examples.recording_delete
                 Examples.profiles_changed "sonarr.settings" tt
                 Examples.profiles_changed)
              SonarrSettings.delete_order)
         [] bs SonarrSettings.delete_order
    /\ List.length bs = 10%nat
    /\ (true = true <-> In true bs).
Proof.
  apply (proj1 (proj1 (delete_remote_order_and_aggregation
                  Examples.recording_delete
                  Examples.profiles_changed "sonarr.settings" tt
                  Examples.profiles_changed [] true
                  SonarrSettings.delete_order))).
  reflexivity.
Defined.

(** ** Dictionaries *)

Section DictFacts.
Context {K V : Type} (eqb : K -> K -> bool).
Hypothesis eqb_eq : forall a b, eqb a b = true <-> a = b.

Lemma eqb_refl_true k : eqb k k = true.
Proof. now apply eqb_eq. Qed.

Lemma dict_get_set (k k' : K) (v : V) (d : dict K V) :
  dict_get eqb k (dict_set eqb k' v d) =
  if eqb k k' then Some v else dict_get eqb k d.
Proof.
  induction d as [|[k0 v0] d IH]; simpl; [reflexivity|].
  destruct (eqb k' k0) eqn:E1; simpl.
  - apply eqb_eq in E1; subst k0. now destruct (eqb k k').
  - rewrite IH. destruct (eqb k k0) eqn:E2, (eqb k k') eqn:E3; try reflexivity.
    apply eqb_eq in E2, E3. subst. rewrite eqb_refl_true in E1. discriminate.
Qed.

Lemma dict_mem_set (k k' : K) (v : V) (d : dict K V) :
  dict_mem eqb k (dict_set eqb k' v d) = (eqb k k' || dict_mem eqb k d)%bool.
Proof.
  unfold dict_mem. rewrite dict_get_set. now destruct (eqb k k').
Qed.

Lemma dict_mem_fold (k : K) (items : list (K * V)) :
  forall acc,
    dict_mem eqb k
      (fold_left (fun d kv => dict_set eqb (fst kv) (snd kv) d) items acc) =
    (dict_mem eqb k acc || existsb (eqb k) (map fst items))%bool.
Proof.
  induction items as [|[k0 v0] items IH]; intros acc; simpl.
  - now rewrite orb_false_r.
  - rewrite IH, dict_mem_set. simpl.
    now destruct (eqb k k0), (dict_mem eqb k acc).
Qed.

Lemma dict_mem_of_items (k : K) (items : list (K * V)) :
  dict_mem eqb k (dict_of_items eqb items) = existsb (eqb k) (map fst items).
Proof. unfold dict_of_items. now rewrite dict_mem_fold. Qed.

Lemma existsb_eqb_In (k : K) (ks : list K) :
  existsb (eqb k) ks = true <-> In k ks.
Proof.
  rewrite existsb_exists. split.
  - intros [x [Hin Hx]]. apply eqb_eq in Hx. now subst.
  - intros Hin. exists k. split; [assumption | apply eqb_refl_true].
Qed.

Lemma dict_get_not_in (k : K) (d : dict K V) :
  ~ In k (map fst d) -> dict_get eqb k d = None.
Proof.
  induction d as [|[k0 v0] d IH]; simpl; [reflexivity|].
  intros Hn. destruct (eqb k k0) eqn:E.
  - apply eqb_eq in E. subst. tauto.
  - apply IH. tauto.
Qed.

Lemma dict_set_fresh (k : K) (v : V) (d : dict K V) :
  ~ In k (map fst d) -> dict_set eqb k v d = d ++ [(k, v)].
Proof.
  induction d as [|[k0 v0] d IH]; simpl; [reflexivity|].
  intros Hn. destruct (eqb k k0) eqn:E.
  - apply eqb_eq in E. subst. tauto.
  - rewrite IH by tauto. reflexivity.
Qed.

(** Items with pairwise distinct keys make the dictionary that lists them in
    their order. *)
Lemma dict_fold_nodup (items : list (K * V)) :
  forall acc,
    NoDup (map fst (acc ++ items)) ->
    fold_left (fun d kv => dict_set eqb (fst kv) (snd kv) d) items acc =
    acc ++ items.
Proof.
  induction items as [|[k0 v0] items IH]; intros acc Hnd; simpl.
  - now rewrite app_nil_r.
  - rewrite dict_set_fresh.
    + rewrite IH; rewrite <- app_assoc; [reflexivity | exact Hnd].
    + rewrite map_app in Hnd. simpl in Hnd.
      apply NoDup_remove_2 in Hnd. intros Hin. apply Hnd.
      apply in_or_app. now left.
Qed.

Lemma dict_of_items_nodup (items : list (K * V)) :
  NoDup (map fst items) -> dict_of_items eqb items = items.
Proof. intros H. unfold dict_of_items. now rewrite dict_fold_nodup. Qed.

Lemma dict_get_in (k : K) (d : dict K V) (v : V) :
  dict_get eqb k d = Some v -> In (k, v) d.
Proof.
  induction d as [|[k0 v0] d IH]; simpl; [discriminate|].
  destruct (eqb k k0) eqn:E.
  - apply eqb_eq in E. subst. intros H. inversion H. now left.
  - intros H. right. now apply IH.
Qed.

Lemma dict_get_nodup_in (k : K) (d : dict K V) (v : V) :
  NoDup (map fst d) -> In (k, v) d -> dict_get eqb k d = Some v.
Proof.
  induction d as [|[k0 v0] d IH]; simpl; [tauto|].
  intros Hnd [Heq|Hin].
  - inversion Heq; subst. now rewrite eqb_refl_true.
  - inversion Hnd; subst. destruct (eqb k k0) eqn:E.
    + apply eqb_eq in E. subst. exfalso. apply H1.
      change k0 with (fst (k0, v)). now apply in_map.
    + now apply IH.
Qed.
End DictFacts.

(** ** Traces *)

Lemma api_calls_app (t1 t2 : trace) :
  api_calls (t1 ++ t2) = api_calls t1 ++ api_calls t2.
Proof. unfold api_calls. apply filter_app. Qed.

Lemma count_calls_app p (t1 t2 : trace) :
  count_calls p (t1 ++ t2) = (count_calls p t1 + count_calls p t2)%nat.
Proof. unfold count_calls. now rewrite filter_app, length_app. Qed.

Lemma count_calls_api p (t : trace) :
  (forall e, p e = true -> is_api_call e = true) ->
  count_calls p t = count_calls p (api_calls t).
Proof.
  intros Hp. unfold count_calls, api_calls.
  induction t as [|e t IH]; simpl; [reflexivity|].
  destruct (p e) eqn:Ep.
  - rewrite (Hp e Ep). simpl. rewrite Ep. simpl. now rewrite IH.
  - destruct (is_api_call e); simpl; [rewrite Ep|]; exact IH.
Qed.

Lemma filter_none {A : Type} (p : A -> bool) (l : list A) :
  (forall x, In x l -> p x = false) -> filter p l = [].
Proof.
  induction l as [|x l IH]; simpl; intros H; [reflexivity|].
  rewrite (H x) by now left. apply IH. intros y Hy. apply H. now right.
Qed.

Lemma bind_emit {A : Type} (e : event) (k : unit -> M trace A) (t : trace) :
  bind (emit e) k t = k tt (t ++ [e]).
Proof. reflexivity. Qed.

(** ** Tags *)

Section TagsFacts.
Import SonarrTagsSettings.

Lemma current_tags_mem (list_tag : list TagResource) (tag : string) :
  dict_mem String.eqb tag
    (dict_of_items String.eqb (map (fun r => (r.(label), r.(id))) list_tag)) =
  negb (absent list_tag tag).
Proof.
  rewrite (dict_mem_of_items String.eqb String.eqb_eq).
  unfold absent. rewrite negb_involutive, map_map. reflexivity.
Qed.

Lemma absent_iff (list_tag : list TagResource) (tag : string) :
  absent list_tag tag = true <-> ~ In tag (map label list_tag).
Proof.
  unfold absent. rewrite negb_true_iff, <- not_true_iff_false.
  now rewrite (existsb_eqb_In String.eqb String.eqb_eq).
Qed.

Lemma update_loop_spec (tree : string) (list_tag : list TagResource)
    (current_tags : dict string Z) :
  (forall tag, dict_mem String.eqb tag current_tags = negb (absent list_tag tag)) ->
  forall tags i changed t0,
  exists emitted,
    update_loop tree current_tags i tags changed t0 =
      (inr (changed || existsb (absent list_tag) tags)%bool, t0 ++ emitted)
    /\ api_calls emitted = map create_tag (filter (absent list_tag) tags).
Proof.
  intros Hcur tags.
  induction tags as [|tag rest IH]; intros i changed t0; simpl.
  - exists []. unfold ret. now rewrite orb_false_r, app_nil_r.
  - rewrite Hcur. destruct (absent list_tag tag) eqn:Ea; simpl.
    + rewrite !bind_emit.
      destruct (IH (i + 1) true ((t0 ++ [Log INFO
                  "%s.definitions[%i]: %s -> (created)"
                  [ArgStr tree; ArgInt i; ArgRepr tag]]) ++ [create_tag tag]))
        as [em [Hrun Hcalls]].
      eexists. rewrite Hrun. rewrite orb_true_r. simpl.
      rewrite <- !app_assoc. split; [reflexivity|].
      rewrite !api_calls_app, Hcalls. reflexivity.
    + rewrite bind_emit.
      destruct (IH (i + 1) changed (t0 ++ [Log DEBUG
                  "%s.definitions[%i]: %s (exists)"
                  [ArgStr tree; ArgInt i; ArgRepr tag]]))
        as [em [Hrun Hcalls]].
      eexists. rewrite Hrun. rewrite <- app_assoc. split; [reflexivity|].
      rewrite api_calls_app, Hcalls. reflexivity.
Qed.

Example tags_update_remote_run :
  SonarrTagsSettings.update_remote Examples.local_tags "sonarr.settings.tags"
    Examples.listed_tags Examples.local_tags false []
  = (inr true,
     [Log INFO "%s.definitions[%i]: %s -> (created)"
        [ArgStr "sonarr.settings.tags"; ArgInt 0; ArgRepr "anime"];
      create_tag "anime";
      Log DEBUG "%s.definitions[%i]: %s (exists)"
        [ArgStr "sonarr.settings.tags"; ArgInt 1; ArgRepr "movies"]]%string).
Proof. reflexivity. Qed.

Lemma count_create_tag (tag : string) (tags : list string) :
  count_calls (is_create_tag tag) (map create_tag tags) =
  count_occ string_dec tags tag.
Proof.
  unfold count_calls. induction tags as [|x tags IH]; simpl; [reflexivity|].
  destruct (string_dec x tag) as [->|Hne].
  - rewrite String.eqb_refl. simpl. now rewrite IH.
  - apply String.eqb_neq in Hne. rewrite Hne. exact IH.
Qed.

Lemma count_occ_filter_nodup (p : string -> bool) (tag : string)
    (tags : list string) :
  NoDup tags -> In tag tags -> p tag = true ->
  count_occ string_dec (filter p tags) tag = 1%nat.
Proof.
  intros Hnd Hin Hp.
  assert (Hnd' : NoDup (filter p tags)) by now apply NoDup_filter.
  assert (Hin' : In tag (filter p tags)) by (apply filter_In; now split).
  rewrite (NoDup_count_occ string_dec) in Hnd'.
  apply (count_occ_In string_dec) in Hin'.
  specialize (Hnd' tag). lia.
Qed.

(** C5. [update_remote] on a set of labels returns normally; it returns
    [True] if and only if some local label is absent from the listed remote
    tags; its API calls are the creations of the absent labels, one for each
    (so one create call for an absent label, none for a label that is
    listed, and no update or delete call at all); and when every local label
    is listed it returns [False] and makes no API call. *)
Theorem tags_update_remote_creates_absent_labels :
  forall self tree list_tag remote check_unmanaged t0,
    NoDup self.(definitions) ->
    exists b emitted,
      SonarrTagsSettings.update_remote self tree list_tag remote
        check_unmanaged t0 = (inr b, t0 ++ emitted)
      /\ (b = true <->
          exists tag, In tag self.(definitions)
                      /\ ~ In tag (map label list_tag))
      /\ api_calls emitted =
           map create_tag (filter (absent list_tag) self.(definitions))
      /\ (forall tag, In tag self.(definitions) ->
            ~ In tag (map label list_tag) ->
            count_calls (is_create_tag tag) emitted = 1%nat)
      /\ (forall tag, In tag (map label list_tag) ->
            count_calls (is_create_tag tag) emitted = 0%nat)
      /\ ((forall tag, In tag self.(definitions) ->
             In tag (map label list_tag)) ->
          b = false /\ api_calls emitted = []).
Proof.
  intros self tree list_tag remote cu t0 Hnd.
  assert (Hloop : exists emitted,
    SonarrTagsSettings.update_remote self tree list_tag remote cu t0 =
      (inr (existsb (absent list_tag) self.(definitions)), t0 ++ emitted)
    /\ api_calls emitted =
         map create_tag (filter (absent list_tag) self.(definitions))).
  { unfold SonarrTagsSettings.update_remote.
    destruct (definitions self) as [|tag rest] eqn:Hd.
    - exists []. unfold ret. now rewrite app_nil_r.
    - apply (update_loop_spec tree list_tag _ (current_tags_mem list_tag)
               (tag :: rest) 0 false t0). }
  destruct Hloop as [emitted [Hrun Hcalls]].
  assert (Hcount : forall tag,
    count_calls (is_create_tag tag) emitted =
    count_occ string_dec (filter (absent list_tag) self.(definitions)) tag).
  { intros tag. rewrite count_calls_api, Hcalls; [apply count_create_tag|].
    intros [] He; simpl in *; congruence. }
  exists (existsb (absent list_tag) self.(definitions)), emitted.
  split; [exact Hrun|]. split; [|split; [exact Hcalls|split; [|split]]].
  - rewrite existsb_exists. split.
    + intros [tag [Hin Ha]]. exists tag. split; [exact Hin|].
      now apply absent_iff.
    + intros [tag [Hin Ha]]. exists tag. split; [exact Hin|].
      now apply absent_iff.
  - intros tag Hin Ha. rewrite Hcount.
    apply count_occ_filter_nodup; [assumption..|]. now apply absent_iff.
  - intros tag Hin. rewrite Hcount. apply count_occ_not_In.
    rewrite filter_In. intros [_ Ha]. apply absent_iff in Ha. contradiction.
  - intros Hall.
    assert (Hf : filter (absent list_tag) self.(definitions) = []).
    { apply filter_none. intros x Hin. apply not_true_iff_false.
      intros Ea. apply absent_iff in Ea. apply Ea, Hall, Hin. }
    split.
    + apply not_true_iff_false. rewrite existsb_exists.
      intros [tag [Hin Ha]]. apply absent_iff in Ha. apply Ha, Hall, Hin.
    + now rewrite Hcalls, Hf.
Qed.
End TagsFacts.

(** Of the two local labels, one is listed: one creation, for the other. *)
Lemma tags_update_remote_witness :
  exists b emitted,
    SonarrTagsSettings.update_remote Examples.local_tags "sonarr.settings.tags"
      Examples.listed_tags Examples.local_tags false []
    = (inr b, [] ++ emitted)
    /\ b = true
    /\ count_calls (is_create_tag "anime") emitted = 1%nat
    /\ count_calls (is_create_tag "movies") emitted = 0%nat.
Proof.
  assert (H1 : NoDup (SonarrTagsSettings.definitions Examples.local_tags)).
  { repeat (constructor; [simpl; intuition discriminate|]). constructor. }
  assert (H2 : ~ In "anime"%string
                 (map SonarrTagsSettings.label Examples.listed_tags)).
  { simpl. intuition discriminate. }
  destruct (tags_update_remote_creates_absent_labels Examples.local_tags
              "sonarr.settings.tags" Examples.listed_tags Examples.local_tags
              false [] H1) as [b [em [Hrun [Hb [_ [Hone [Hzero _]]]]]]].
  exists b, em. split; [exact Hrun|]. split; [|split].
  - apply Hb. exists "anime"%string. split; [simpl; auto | exact H2].
  - apply Hone; [simpl; auto | exact H2].
  - apply Hzero. simpl. auto.
Defined.

(** ** List exclusions *)

Section ExclusionFacts.
Import ListExclusion ListExclusionsSettings.

Lemma get_create_remote_attrs_eq (x : ListExclusion.t) (tree : string) :
  get_create_remote_attrs x tree _remote_map = remote_attrs x.
Proof. reflexivity. Qed.

Lemma get_update_remote_attrs_eq (x remote : ListExclusion.t) (tree : string) :
  get_update_remote_attrs x tree remote _remote_map true =
  (differs x remote, remote_attrs x).
Proof.
  unfold get_update_remote_attrs, differs, _remote_map. simpl.
  rewrite !orb_true_r. simpl. f_equal.
  destruct (tmdb_id x =? tmdb_id remote), (title x =? title remote)%string,
    (year x =? year remote); reflexivity.
Qed.

(** [_update_remote] returns normally; it calls the API when an attribute
    differs, with the listed resource overwritten by the local attributes. *)
Lemma exclusion_update_remote_spec (x remote : ListExclusion.t) (tree : string)
    (a : ImportExclusionsResource) (t0 : trace) :
  ListExclusion._update_remote x tree remote a t0 =
  (inr (differs x remote),
   t0 ++ (if differs x remote
          then [update_exclusions (str_of_int a.(id))
                  (("id"%string, PyInt a.(id)) :: remote_attrs x)]
          else [])).
Proof.
  unfold ListExclusion._update_remote. rewrite get_update_remote_attrs_eq.
  destruct (differs x remote).
  - reflexivity.
  - unfold ret. now rewrite app_nil_r.
Qed.

Lemma by_tmdb_id_mem (xs : list ListExclusion.t) (x : ListExclusion.t) :
  dict_mem Z.eqb x.(tmdb_id) (by_tmdb_id xs) = keyed_in xs x.
Proof.
  unfold by_tmdb_id, keyed_in.
  rewrite (dict_mem_of_items Z.eqb Z.eqb_eq), map_map. reflexivity.
Qed.

Lemma keyed_in_iff (xs : list ListExclusion.t) (x : ListExclusion.t) :
  keyed_in xs x = true <-> In x.(tmdb_id) (map tmdb_id xs).
Proof. apply (existsb_eqb_In Z.eqb Z.eqb_eq). Qed.

Lemma api_resource_some_iff (le : list ImportExclusionsResource) (k : Z) :
  api_resource le k <> None <-> In k (map res_tmdb_id le).
Proof.
  unfold api_resource.
  rewrite <- (existsb_eqb_In Z.eqb Z.eqb_eq).
  replace (map res_tmdb_id le)
    with (map fst (map (fun r => (r.(res_tmdb_id), r)) le))
    by (rewrite map_map; reflexivity).
  rewrite <- (dict_mem_of_items Z.eqb Z.eqb_eq). unfold dict_mem, api_by_tmdb_id.
  destruct (dict_get Z.eqb k _); split; congruence.
Qed.

Lemma by_tmdb_id_nodup (xs : list ListExclusion.t) :
  NoDup (map tmdb_id xs) ->
  by_tmdb_id xs = map (fun x => (x.(tmdb_id), x)) xs.
Proof.
  intros H. unfold by_tmdb_id. apply (dict_of_items_nodup Z.eqb Z.eqb_eq).
  now rewrite map_map.
Qed.

Lemma by_tmdb_id_values_nodup (xs : list ListExclusion.t) :
  NoDup (map tmdb_id xs) -> dict_values (by_tmdb_id xs) = xs.
Proof.
  intros H. rewrite by_tmdb_id_nodup by assumption.
  unfold dict_values. rewrite map_map. simpl. apply map_id.
Qed.

Lemma dict_get_keyed_find (xs : list ListExclusion.t) (k : Z) :
  dict_get Z.eqb k (map (fun x => (x.(tmdb_id), x)) xs) =
  find (fun r => Z.eqb k r.(tmdb_id)) xs.
Proof.
  induction xs as [|x xs IH]; simpl; [reflexivity|].
  now destruct (k =? tmdb_id x).
Qed.
End ExclusionFacts.

Section DictInvariant.
Context {K V : Type} (eqb : K -> K -> bool).
Hypothesis eqb_eq : forall a b, eqb a b = true <-> a = b.
Variable P : K * V -> Prop.

Lemma dict_set_forall (k : K) (v : V) (d : dict K V) :
  Forall P d -> P (k, v) -> Forall P (dict_set eqb k v d).
Proof.
  induction d as [|[k0 v0] d IH]; simpl; intros Hd Hkv.
  - now constructor.
  - inversion Hd; subst. destruct (eqb k k0) eqn:E.
    + apply eqb_eq in E. subst. now constructor.
    + constructor; [assumption | now apply IH].
Qed.

Lemma dict_fold_forall (items : list (K * V)) :
  forall acc,
    Forall P acc -> Forall P items ->
    Forall P (fold_left (fun d kv => dict_set eqb (fst kv) (snd kv) d) items acc).
Proof.
  induction items as [|[k0 v0] items IH]; intros acc Ha Hi; simpl.
  - exact Ha.
  - inversion Hi; subst. apply IH; [|assumption].
    now apply dict_set_forall.
Qed.

Lemma dict_of_items_forall (items : list (K * V)) :
  Forall P items -> Forall P (dict_of_items eqb items).
Proof. intros H. unfold dict_of_items. now apply dict_fold_forall. Qed.

Lemma dict_get_forall (k : K) (d : dict K V) (v : V) :
  Forall P d -> dict_get eqb k d = Some v -> P (k, v).
Proof.
  intros Hd Hg. apply (dict_get_in eqb eqb_eq) in Hg.
  rewrite Forall_forall in Hd. now apply Hd.
Qed.
End DictInvariant.

Lemma NoDup_map_inj {A B : Type} (f : A -> B) (l : list A) (a a' : A) :
  NoDup (map f l) -> In a l -> In a' l -> f a = f a' -> a = a'.
Proof.
  induction l as [|x l IH]; simpl; [tauto|].
  intros Hnd Ha Ha' Hf. inversion Hnd; subst.
  destruct Ha as [->|Ha], Ha' as [->|Ha'].
  - reflexivity.
  - exfalso. apply H1. rewrite Hf. now apply in_map.
  - exfalso. apply H1. rewrite <- Hf. now apply in_map.
  - now apply IH.
Qed.


Lemma bind_lift {W A B : Type} (r : result A) (k : A -> M W B) (w : W) :
  bind (lift r) k w =
  match r with
  | inl e => (inl e, w)
  | inr a => k a w
  end.
Proof. unfold bind, lift. now destruct r. Qed.

Section ExclusionLoops.
Import ListExclusion ListExclusionsSettings.

Lemma by_tmdb_id_keys (xs : list ListExclusion.t) :
  Forall (fun kv => fst kv = (snd kv).(tmdb_id)) (by_tmdb_id xs).
Proof.
  unfold by_tmdb_id. apply (dict_of_items_forall Z.eqb Z.eqb_eq).
  apply Forall_forall. intros kv Hin. apply in_map_iff in Hin.
  destruct Hin as [x [<- _]]. reflexivity.
Qed.

Lemma by_tmdb_id_values_key (xs : list ListExclusion.t) (l : ListExclusion.t) :
  In l xs ->
  exists x, In x (dict_values (by_tmdb_id xs)) /\ x.(tmdb_id) = l.(tmdb_id).
Proof.
  intros Hin.
  assert (Hm : dict_mem Z.eqb l.(tmdb_id) (by_tmdb_id xs) = true).
  { rewrite by_tmdb_id_mem. apply keyed_in_iff. now apply in_map. }
  unfold dict_mem in Hm.
  destruct (dict_get Z.eqb (tmdb_id l) (by_tmdb_id xs)) as [x|] eqn:Hg;
    [|discriminate].
  exists x. split.
  - apply (dict_get_in Z.eqb Z.eqb_eq) in Hg.
    unfold dict_values. change x with (snd (tmdb_id l, x)). now apply in_map.
  - symmetry.
    apply (dict_get_forall Z.eqb Z.eqb_eq _ _ _ _ (by_tmdb_id_keys xs) Hg).
Qed.


(** A [tmdb_id] that is in the remote snapshot and not in the fresh listing
    stops the update loop with [KeyError]; the calls made before are for
    other [tmdb_id]s. *)
Lemma update_loop_keyerror (tree : string)
    (api : dict Z ImportExclusionsResource) (remote : dict Z ListExclusion.t) :
  forall values i changed t0 x0,
    In x0 values ->
    dict_mem Z.eqb x0.(tmdb_id) remote = true ->
    dict_mem Z.eqb x0.(tmdb_id) api = false ->
    exists emitted,
      update_loop tree api remote i values changed t0 =
        (inl KeyError, t0 ++ emitted)
      /\ Forall (fun e => forall k, call_tmdb_id e = Some (PyInt k) ->
                   dict_mem Z.eqb k remote = false
                   \/ dict_mem Z.eqb k api = true) emitted.
Proof.
  induction values as [|x rest IH]; intros i changed t0 x0 Hin Hr Ha;
    [destruct Hin|].
  simpl. destruct (dict_mem Z.eqb (tmdb_id x) remote) eqn:Exr; simpl.
  - rewrite bind_lift. unfold dict_index.
    unfold dict_mem in Exr.
    destruct (dict_get Z.eqb (tmdb_id x) remote) as [r|] eqn:Egr;
      [|discriminate].
    rewrite bind_lift.
    destruct (dict_get Z.eqb (tmdb_id x) api) as [a|] eqn:Ega.
    + assert (Hne : x0 <> x).
      { intros ->. unfold dict_mem in Ha. now rewrite Ega in Ha. }
      destruct Hin as [Heq|Hin]; [congruence|].
      unfold bind at 1. rewrite exclusion_update_remote_spec.
      destruct (IH (i + 1) (if differs x r then true else changed)
                  (t0 ++ (if differs x r
                          then [update_exclusions (str_of_int a.(id))
                                  (("id"%string, PyInt a.(id)) :: remote_attrs x)]
                          else [])) x0 Hin Hr Ha) as [em [Hrun Hall]].
      eexists. rewrite Hrun, <- app_assoc. split; [reflexivity|].
      apply Forall_app. split; [|exact Hall].
      destruct (differs x r); constructor; [|constructor].
      intros k Hk. simpl in Hk. inversion Hk; subst. right.
      unfold dict_mem. now rewrite Ega.
    + exists []. now rewrite app_nil_r.
  - assert (Hne : x0 <> x) by (intros ->; congruence).
    destruct Hin as [Heq|Hin]; [congruence|].
    unfold _create_remote. rewrite bind_emit.
    destruct (IH (i + 1) true
                (t0 ++ [create_exclusions
                          (get_create_remote_attrs x (definitions_tree tree i)
                             _remote_map)]) x0 Hin Hr Ha) as [em [Hrun Hall]].
    eexists. rewrite Hrun, <- app_assoc. split; [reflexivity|].
    constructor; [|exact Hall].
    intros k Hk. simpl in Hk. inversion Hk; subst. now left.
Qed.

(** C10. A local exclusion whose [tmdb_id] is in the remote snapshot and not
    in the fresh API listing makes [update_remote] raise [KeyError]; no
    create or update call is made for that [tmdb_id]. *)
Theorem exclusions_update_remote_keyerror :
  forall self tree list_exclusions remote check_unmanaged t0 l,
    In l self.(definitions) ->
    In l.(tmdb_id) (map tmdb_id remote.(definitions)) ->
    ~ In l.(tmdb_id) (map res_tmdb_id list_exclusions) ->
    exists emitted,
      ListExclusionsSettings.update_remote self tree list_exclusions remote
        check_unmanaged t0 = (inl KeyError, t0 ++ emitted)
      /\ (forall e, In e emitted ->
            call_tmdb_id e <> Some (PyInt l.(tmdb_id))).
Proof.
  intros self tree le remote cu t0 l Hin Hrem Hapi.
  destruct (by_tmdb_id_values_key _ _ Hin) as [x0 [Hx0 Hkey]].
  assert (Hr : dict_mem Z.eqb x0.(tmdb_id) (by_tmdb_id remote.(definitions)) = true).
  { rewrite by_tmdb_id_mem. apply keyed_in_iff. now rewrite Hkey. }
  assert (Ha : dict_mem Z.eqb x0.(tmdb_id) (api_by_tmdb_id le) = false).
  { apply not_true_iff_false. intros Hm. apply Hapi.
    apply api_resource_some_iff. unfold api_resource.
    unfold dict_mem in Hm. rewrite <- Hkey.
    destruct (dict_get Z.eqb (tmdb_id x0) (api_by_tmdb_id le)); congruence. }
  destruct (update_loop_keyerror tree _ _ _ 0 false t0 x0 Hx0 Hr Ha)
    as [em [Hrun Hall]].
  exists em. split; [exact Hrun|].
  intros e He Hcall. rewrite Forall_forall in Hall.
  destruct (Hall e He _ Hcall) as [H|H]; rewrite <- Hkey in H; congruence.
Qed.
End ExclusionLoops.

Section ExclusionReconciliation.
Import ListExclusion ListExclusionsSettings.

Lemma keyed_in_find (xs : list ListExclusion.t) (x : ListExclusion.t) :
  keyed_in xs x =
  match find (fun r => Z.eqb x.(tmdb_id) r.(tmdb_id)) xs with
  | Some _ => true
  | None => false
  end.
Proof.
  unfold keyed_in. induction xs as [|y xs IH]; simpl; [reflexivity|].
  now destruct (tmdb_id x =? tmdb_id y).
Qed.

(** When every matched [tmdb_id] is in the fresh listing, the update loop
    returns normally and its calls are those owed to each local exclusion,
    in order. *)
Lemma update_loop_ok (tree : string) (le : list ImportExclusionsResource)
    (rd : list ListExclusion.t) :
  NoDup (map tmdb_id rd) ->
  forall values i changed t0,
    (forall x, In x values -> keyed_in rd x = true ->
               api_resource le x.(tmdb_id) <> None) ->
    exists b,
      update_loop tree (api_by_tmdb_id le) (by_tmdb_id rd) i values changed t0 =
        (inr b, t0 ++ flat_map (update_calls_for le rd) values)
      /\ (b = true <->
          changed = true \/ flat_map (update_calls_for le rd) values <> []).
Proof.
  intros Hnd.
  induction values as [|x rest IH]; intros i changed t0 Hapi.
  - exists changed. simpl. unfold ret. rewrite app_nil_r. split; [reflexivity|].
    tauto.
  - simpl. rewrite by_tmdb_id_mem.
    assert (Hrest : forall y, In y rest -> keyed_in rd y = true ->
                              api_resource le (tmdb_id y) <> None)
      by (intros y Hy; apply Hapi; now right).
    unfold update_calls_for at 1 3.
    pose proof (keyed_in_find rd x) as Hk.
    destruct (find (fun r => tmdb_id x =? tmdb_id r) rd) as [r|] eqn:Ef.
    + rewrite Hk. simpl.
      rewrite bind_lift. unfold dict_index.
      rewrite by_tmdb_id_nodup by assumption.
      rewrite dict_get_keyed_find, Ef.
      rewrite bind_lift.
      specialize (Hapi x (or_introl eq_refl) Hk).
      unfold api_resource in Hapi |- *.
      destruct (dict_get Z.eqb (tmdb_id x) (api_by_tmdb_id le)) as [a|] eqn:Ea;
        [|congruence].
      unfold bind at 1. rewrite exclusion_update_remote_spec.
      rewrite <- by_tmdb_id_nodup by assumption.
      destruct (IH (i + 1) (if differs x r then true else changed)
                  (t0 ++ (if differs x r
                          then [update_exclusions (str_of_int a.(id))
                                  (("id"%string, PyInt a.(id)) :: remote_attrs x)]
                          else [])) Hrest) as [b [Hrun Hb]].
      exists b. rewrite Hrun, <- app_assoc. split; [reflexivity|].
      rewrite Hb. destruct (differs x r); simpl.
      * split; intros _; [right; discriminate | now left].
      * tauto.
    + rewrite Hk. simpl. unfold _create_remote. rewrite bind_emit.
      rewrite get_create_remote_attrs_eq.
      destruct (IH (i + 1) true (t0 ++ [create_exclusions (remote_attrs x)])
                  Hrest) as [b [Hrun Hb]].
      exists b. rewrite Hrun, <- app_assoc. split; [reflexivity|].
      rewrite Hb. split; intros _; [right; discriminate | now left].
Qed.

Lemma logged_trees_app (t1 t2 : trace) :
  logged_trees (t1 ++ t2) = logged_trees t1 ++ logged_trees t2.
Proof. unfold logged_trees. apply flat_map_app. Qed.

(** The deletion loop: it returns normally when every unmanaged [tmdb_id] it
    has to delete is in the fresh listing; it makes one delete call per
    unmanaged exclusion, for the id the listing gives it, when
    [delete_unmanaged] is set, and no API call otherwise. *)
Lemma delete_loop_spec (self : ListExclusionsSettings.t) (tree : string)
    (le : list ImportExclusionsResource) :
  forall values i changed t0,
    (self.(delete_unmanaged) = true ->
     forall x, In x values -> keyed_in self.(definitions) x = false ->
               api_resource le x.(tmdb_id) <> None) ->
    let unmanaged := filter (fun x => negb (keyed_in self.(definitions) x)) values in
    exists emitted,
      delete_loop self tree (api_by_tmdb_id le) (by_tmdb_id self.(definitions))
        i values changed t0 =
        (inr (changed || (self.(delete_unmanaged)
                          && negb (Nat.eqb (List.length unmanaged) 0)))%bool,
         t0 ++ emitted)
      /\ (if self.(delete_unmanaged)
          then Forall2 (fun x e => exists n, remote_id le x = Some n
                                             /\ e = delete_exclusions n)
                 unmanaged (api_calls emitted)
          else api_calls emitted = [])
      /\ logged_trees emitted =
           map (definitions_tree tree) (counted_from i (List.length unmanaged)).
Proof.
  induction values as [|x rest IH]; intros i changed t0 Hapi unmanaged.
  - exists []. simpl. unfold ret.
    rewrite app_nil_r, andb_false_r, orb_false_r.
    split; [reflexivity|]. split; [|reflexivity].
    destruct (delete_unmanaged self); [constructor | reflexivity].
  - assert (Hrest : delete_unmanaged self = true ->
                    forall y, In y rest ->
                              keyed_in (definitions self) y = false ->
                              api_resource le (tmdb_id y) <> None)
      by (intros Hdu y Hy; apply (Hapi Hdu); now right).
    subst unmanaged. simpl. rewrite by_tmdb_id_mem.
    destruct (keyed_in (definitions self) x) eqn:Ek; simpl.
    + destruct (IH i changed t0 Hrest) as [em H]. exists em. exact H.
    + destruct (delete_unmanaged self) eqn:Edu.
      * rewrite bind_emit, bind_lift. unfold dict_index.
        specialize (Hapi eq_refl x (or_introl eq_refl) Ek).
        unfold api_resource in Hapi.
        destruct (dict_get Z.eqb (tmdb_id x) (api_by_tmdb_id le)) as [a|] eqn:Ea;
          [|congruence].
        unfold _delete_remote. rewrite bind_emit.
        replace (i - -1) with (i + 1) by lia.
        destruct (IH (i + 1) true
                    ((t0 ++ [Log INFO "%s: (...) -> (deleted)"
                               [ArgStr (definitions_tree tree i)]])
                        ++ [delete_exclusions (id a)]) Hrest)
          as [em [Hrun [Hcalls Hlog]]].
        eexists. rewrite Hrun, <- !app_assoc.
        rewrite orb_true_r. simpl. split; [reflexivity|]. split.
        -- constructor; [|exact Hcalls].
           exists (id a). split; [|reflexivity].
           unfold remote_id, api_resource. now rewrite Ea.
        -- rewrite <- Hlog. reflexivity.
      * rewrite bind_emit. replace (i - -1) with (i + 1) by lia.
        destruct (IH (i + 1) changed
                    (t0 ++ [Log DEBUG "%s: (...) (unmanaged)"
                              [ArgStr (definitions_tree tree i)]]) Hrest)
          as [em [Hrun [Hcalls Hlog]]].
        eexists. rewrite Hrun, <- !app_assoc. rewrite !andb_false_l in *.
        split; [reflexivity|]. split.
        -- exact Hcalls.
        -- rewrite <- Hlog. reflexivity.
Qed.
End ExclusionReconciliation.

Section ExclusionDeletion.
Import ListExclusion ListExclusionsSettings.



Lemma NoDup_of_map {A B : Type} (f : A -> B) (l : list A) :
  NoDup (map f l) -> NoDup l.
Proof.
  induction l as [|x l IH]; simpl; intros H; [constructor|].
  inversion H; subst. constructor; [|now apply IH].
  intros Hin. apply H2. now apply in_map.
Qed.

Lemma keyed_in_false_iff (xs : list ListExclusion.t) (x : ListExclusion.t) :
  keyed_in xs x = false <-> ~ In x.(tmdb_id) (map tmdb_id xs).
Proof. rewrite <- keyed_in_iff. symmetry. apply not_true_iff_false. Qed.

End ExclusionDeletion.

Section ExclusionMatching.
Import ListExclusion ListExclusionsSettings.

Lemma remote_attrs_inj (x y : ListExclusion.t) :
  remote_attrs x = remote_attrs y -> x = y.
Proof.
  destruct x, y. unfold remote_attrs. simpl. intros H. now inversion H.
Qed.

(** C6, as the code has it. Local and remote exclusions are matched by
    [tmdb_id] alone. On collections with unique [tmdb_id]s and a fresh
    listing that holds every [tmdb_id] of the remote snapshot:
    [update_remote] creates a local exclusion exactly when no remote
    exclusion has its [tmdb_id], and otherwise compares title and year only
    to decide an update of the listed resource; [delete_remote] treats a
    remote exclusion as unmanaged exactly when no local exclusion has its
    [tmdb_id]. The remote-assigned id appears only as the argument of the
    update and delete calls. *)
Theorem exclusions_matched_by_tmdb_id :
  forall self tree list_exclusions remote check_unmanaged t0,
    NoDup (map tmdb_id self.(definitions)) ->
    NoDup (map tmdb_id remote.(definitions)) ->
    (forall k, In k (map tmdb_id remote.(definitions)) ->
               In k (map res_tmdb_id list_exclusions)) ->
    (exists b emitted,
       ListExclusionsSettings.update_remote self tree list_exclusions remote
         check_unmanaged t0 = (inr b, t0 ++ emitted)
       /\ emitted =
            flat_map (update_calls_for list_exclusions remote.(definitions))
                     self.(definitions)
       /\ (forall l, In l self.(definitions) ->
             (In (create_exclusions (remote_attrs l)) emitted <->
              ~ In l.(tmdb_id) (map tmdb_id remote.(definitions)))))
    /\ (exists b emitted,
          ListExclusionsSettings.delete_remote self tree list_exclusions
            remote t0 = (inr b, t0 ++ emitted)
          /\ (if self.(delete_unmanaged)
              then Forall2 (fun x e =>
                              exists n, remote_id list_exclusions x = Some n
                                        /\ e = delete_exclusions n)
                     (filter (fun x => negb (existsb (Z.eqb x.(tmdb_id))
                                               (map tmdb_id self.(definitions))))
                             remote.(definitions))
                     (api_calls emitted)
              else api_calls emitted = [])).
Proof.
  intros self tree le remote cu t0 Hlocal Hremote Hlisted. split.
  - unfold ListExclusionsSettings.update_remote.
    rewrite (by_tmdb_id_values_nodup self.(definitions)) by assumption.
    destruct (update_loop_ok tree le remote.(definitions) Hremote
                self.(definitions) 0 false t0) as [b [Hrun _]].
    { intros x _ Hk. apply api_resource_some_iff, Hlisted.
      now apply keyed_in_iff. }
    exists b. eexists. split; [exact Hrun|]. split; [reflexivity|].
    intros l Hl. rewrite in_flat_map. split.
    + intros [x [Hx Hc]] Hin. unfold update_calls_for in Hc.
      pose proof (keyed_in_find remote.(definitions) x) as Hk.
      destruct (find (fun r => tmdb_id x =? tmdb_id r) (definitions remote))
        as [r|].
      * destruct (api_resource le (tmdb_id x)) as [a|]; [|destruct Hc].
        destruct (differs x r); [|destruct Hc].
        destruct Hc as [Hc|[]]. discriminate.
      * destruct Hc as [Hc|[]]. inversion Hc as [Hattrs].
        assert (x = l) by (apply remote_attrs_inj; unfold remote_attrs; congruence).
        subst x. apply keyed_in_iff in Hin. congruence.
    + intros Hn. exists l. split; [exact Hl|].
      unfold update_calls_for.
      pose proof (keyed_in_find remote.(definitions) l) as Hk.
      apply keyed_in_false_iff in Hn. rewrite Hn in Hk.
      destruct (find (fun r => tmdb_id l =? tmdb_id r) (definitions remote));
        [discriminate | now left].
  - unfold ListExclusionsSettings.delete_remote.
    rewrite (by_tmdb_id_values_nodup remote.(definitions)) by assumption.
    destruct (delete_loop_spec self tree le remote.(definitions) (-1) false t0)
      as [em [Hrun [Hcalls _]]].
    { intros _ x Hx _. apply api_resource_some_iff, Hlisted.
      now apply in_map. }
    eexists. exists em. split; [exact Hrun | exact Hcalls].
Qed.

(** The claim C6 as stated fails: [ex_a] and [ex_b] differ in title and
    year, yet [update_remote] does not create [ex_a] (it updates the listed
    resource of [ex_b]) and [delete_remote], with [delete_unmanaged] set,
    does not delete [ex_b]. *)
Lemma exclusions_title_year_not_matched :
  ~ (exists r, In r [Examples.ex_b]
               /\ Examples.ex_a.(title) = r.(title)
               /\ Examples.ex_a.(year) = r.(year)
               /\ Examples.ex_a.(tmdb_id) = r.(tmdb_id))
  /\ ListExclusionsSettings.update_remote
       (Examples.exclusions true [Examples.ex_a]) "sonarr.settings.exclusions"
       [Examples.res_b] (Examples.exclusions false [Examples.ex_b]) false []
     = (inr true,
        [update_exclusions "10"
           [("id", PyInt 10); ("tmdbId", PyInt 1); ("movieTitle", PyStr "A");
            ("movieYear", PyInt 2000)]%string])
  /\ ListExclusionsSettings.delete_remote
       (Examples.exclusions true [Examples.ex_a]) "sonarr.settings.exclusions"
       [Examples.res_b] (Examples.exclusions false [Examples.ex_b]) []
     = (inr false, []).
Proof.
  split; [|split]; [|reflexivity..].
  intros [r [[<-|[]] [Ht _]]]. discriminate.
Qed.

Lemma exclusions_matched_by_tmdb_id_witness :
  exists b,
    ListExclusionsSettings.update_remote
      (Examples.exclusions true [Examples.ex_a; Examples.ex_c])
      "sonarr.settings.exclusions" [Examples.res_b]
      (Examples.exclusions false [Examples.ex_b]) false []
    = (inr b,
       [update_exclusions "10"
          [("id", PyInt 10); ("tmdbId", PyInt 1); ("movieTitle", PyStr "A");
           ("movieYear", PyInt 2000)];
        create_exclusions
          [("tmdbId", PyInt 2); ("movieTitle", PyStr "C");
           ("movieYear", PyInt 2002)]]%string).
Proof.
  assert (H1 : NoDup (map tmdb_id [Examples.ex_a; Examples.ex_c])).
  { repeat (constructor; [simpl; intuition discriminate|]). constructor. }
  assert (H2 : NoDup (map tmdb_id [Examples.ex_b])).
  { repeat (constructor; [simpl; intuition discriminate|]). constructor. }
  assert (H3 : forall k, In k (map tmdb_id [Examples.ex_b]) ->
                         In k (map res_tmdb_id [Examples.res_b])).
  { intros k Hk. exact Hk. }
  destruct (exclusions_matched_by_tmdb_id
              (Examples.exclusions true [Examples.ex_a; Examples.ex_c])
              "sonarr.settings.exclusions" [Examples.res_b]
              (Examples.exclusions false [Examples.ex_b]) false [] H1 H2 H3)
    as [[b [em [Hrun [Hem _]]]] _].
  exists b. rewrite Hrun, Hem. reflexivity.
Defined.
End ExclusionMatching.

Section ExclusionRuns.
Import ListExclusion ListExclusionsSettings.

(** The tree paths of the deletion pass carry the indices -1, 0, 1, ...: the
    index starts at -1 and [i -= -1] adds one per unmanaged exclusion. *)
Lemma delete_remote_logged_indices :
  forall self tree list_exclusions remote t0,
    NoDup (map tmdb_id remote.(definitions)) ->
    (self.(delete_unmanaged) = true ->
     forall x, In x remote.(definitions) ->
               In x.(tmdb_id) (map res_tmdb_id list_exclusions)) ->
    exists b emitted,
      ListExclusionsSettings.delete_remote self tree list_exclusions remote t0
        = (inr b, t0 ++ emitted)
      /\ logged_trees emitted =
           map (definitions_tree tree)
             (counted_from (-1)
                (List.length
                   (filter (fun x => negb (keyed_in self.(definitions) x))
                           remote.(definitions)))).
Proof.
  intros self tree le remote t0 Hkeys Hapi.
  unfold ListExclusionsSettings.delete_remote.
  rewrite by_tmdb_id_values_nodup by assumption.
  destruct (delete_loop_spec self tree le remote.(definitions) (-1) false t0)
    as [em [Hrun [_ Hlog]]].
  { intros Hdu x Hx _. apply api_resource_some_iff. now apply Hapi. }
  eexists. exists em. split; [exact Hrun | exact Hlog].
Qed.

(** C9, on the code: with two unmanaged remote exclusions, the first is
    logged under index -1 and the second under index 0, which is not
    negative; both are deleted and the pass returns [True]. *)
Theorem exclusions_delete_remote_index_not_negative :
  ListExclusionsSettings.delete_remote
    (Examples.exclusions true []) "sonarr.settings.exclusions"
    [Examples.res_c; Examples.res_d]
    (Examples.exclusions false [Examples.ex_c; Examples.ex_d]) []
  = (inr true,
     [Log INFO "%s: (...) -> (deleted)"
        [ArgStr "sonarr.settings.exclusions.definitions[-1]"];
      delete_exclusions 11;
      Log INFO "%s: (...) -> (deleted)"
        [ArgStr "sonarr.settings.exclusions.definitions[0]"];
      delete_exclusions 12]%string).
Proof. reflexivity. Qed.



Lemma exclusions_update_remote_keyerror_witness :
  exists emitted,
    ListExclusionsSettings.update_remote
      (Examples.exclusions false [Examples.ex_c; Examples.ex_a])
      "sonarr.settings.exclusions" [Examples.res_c]
      (Examples.exclusions false [Examples.ex_b]) false []
    = (inl KeyError, [] ++ emitted)
    /\ (forall e, In e emitted ->
          call_tmdb_id e <> Some (PyInt Examples.ex_a.(tmdb_id))).
Proof.
  apply (exclusions_update_remote_keyerror
           (Examples.exclusions false [Examples.ex_c; Examples.ex_a])
           "sonarr.settings.exclusions" [Examples.res_c]
           (Examples.exclusions false [Examples.ex_b]) false []
           Examples.ex_a).
  - simpl. auto.
  - simpl. auto.
  - simpl. intuition discriminate.
Defined.

End ExclusionRuns.

(** ** Newznab categories *)

(** C8. The category codec round-trips: encoding a decoded integer gives the
    integer back, and decoding an encoded member gives the member back. *)
Theorem nab_category_codec_roundtrip :
  (forall v : Z, NabCategory.encode (NabCategory.decode v) = v)
  /\ (forall c : NabCategory.t,
        NabCategory.decode (NabCategory.encode (inl c)) = inl c)
  /\ (forall vs : list Z,
        map NabCategory.encode (map NabCategory.decode vs) = vs)
  /\ (forall cs : list NabCategory.t,
        map NabCategory.decode (map NabCategory.encode (map inl cs))
        = map inl cs).
Proof.
  assert (Hint : forall v, NabCategory.encode (NabCategory.decode v) = v).
  { intros v. unfold NabCategory.decode.
    destruct (NabCategory.of_value v) as [c|] eqn:E; simpl; [|reflexivity].
    unfold NabCategory.of_value in E. apply find_some in E.
    destruct E as [_ E]. now apply Z.eqb_eq in E. }
  assert (Hmem : forall c, NabCategory.decode (NabCategory.encode (inl c))
                           = inl c).
  { intros c. destruct c; reflexivity. }
  split; [exact Hint|]. split; [exact Hmem|]. split.
  - intros vs. rewrite map_map. rewrite <- (map_id vs) at 2.
    apply map_ext. exact Hint.
  - intros cs. rewrite !map_map. apply map_ext. exact Hmem.
Qed.

Example decode_known_code : NabCategory.decode 5040 = inl NabCategory.TV_HD.
Proof. reflexivity. Qed.

Example decode_unknown_code : NabCategory.decode 1234 = inr 1234.
Proof. reflexivity. Qed.

Example encode_member : NabCategory.encode (inl NabCategory.TV_SPORT) = 5060.
Proof. reflexivity. Qed.

(** ** Download clients *)

Section DownloadClientFacts.
Import DownloadClient.

Lemma find_all_false {A : Type} (p : A -> bool) (l : list A) :
  (forall x, In x l -> p x = false) -> find p l = None.
Proof.
  induction l as [|x l IH]; simpl; intros H; [reflexivity|].
  rewrite (H x) by now left. apply IH. intros y Hy. apply H. now right.
Qed.

(** The implementation name is compared in lower case, and the schema is
    returned without its [id] and [name]. *)
Example get_api_schema_matches_case_insensitively :
  _get_api_schema Examples.qbittorrent_client
    [Examples.transmission_schema; Examples.qbittorrent_schema]
  = inr [("implementation", PyStr "qBittorrent");
         ("fields", PyList [Examples.field "host" (PyStr "localhost") 0;
                            Examples.field "port" (PyInt 8080) 1;
                            Examples.field "useSsl" (PyBool false) 2])]%string.
Proof. reflexivity. Qed.

(** Whenever no schema of the catalog matches the implementation of the
    download client (compared in lower case), [_get_api_schema] raises the
    built-in [StopIteration], which is not an exception of the plugin, and
    [_create_remote] raises it before any API call. *)
Theorem get_api_schema_unsupported_stop_iteration :
  forall self schemas,
    unsupported self schemas ->
    _get_api_schema self schemas = inl StopIteration
    /\ is_SonarrError StopIteration = false
    /\ (forall get_create_remote_attrs tree tag_ids downloadclient_name t0,
          _create_remote get_create_remote_attrs self tree schemas tag_ids
            downloadclient_name t0 = (inl StopIteration, t0)).
Proof.
  intros self schemas Hun.
  assert (Hs : _get_api_schema self schemas = inl StopIteration).
  { unfold _get_api_schema. rewrite find_all_false; [reflexivity|].
    intros s Hin. apply String.eqb_neq. now apply Hun. }
  split; [exact Hs|]. split; [reflexivity|].
  intros gcra tree tag_ids name t0.
  unfold _create_remote, create_remote_attrs. rewrite Hs. reflexivity.
Qed.

(** C3, on the code: the catalog offers Transmission only and the client is
    a qBittorrent one, so its implementation has no schema; the unguarded
    [next()] of [_get_api_schema] lets the built-in [StopIteration] out, not
    the [SonarrConfigUnsupportedError] that [exceptions.py] documents for an
    unsupported resource type, and [_create_remote] raises it before any API
    call. *)
Lemma get_api_schema_not_config_unsupported :
  unsupported Examples.qbittorrent_client [Examples.transmission_schema]
  /\ _get_api_schema Examples.qbittorrent_client [Examples.transmission_schema]
     = inl StopIteration
  /\ _get_api_schema Examples.qbittorrent_client [Examples.transmission_schema]
     <> inl SonarrConfigUnsupportedError
  /\ _create_remote Examples.get_create_attrs Examples.qbittorrent_client
       "sonarr.settings.download_clients.definitions['seedbox']"
       [Examples.transmission_schema] [] "seedbox" []
     = (inl StopIteration, []).
Proof.
  split; [|split; [reflexivity|split; [discriminate|reflexivity]]].
  intros s [<-|[]]. discriminate.
Qed.

Lemma get_api_schema_unsupported_witness :
  _get_api_schema Examples.qbittorrent_client [Examples.transmission_schema]
  = inl StopIteration
  /\ is_SonarrError StopIteration = false
  /\ (forall get_create_remote_attrs tree tag_ids downloadclient_name t0,
        _create_remote get_create_remote_attrs Examples.qbittorrent_client
          tree [Examples.transmission_schema] tag_ids downloadclient_name t0
        = (inl StopIteration, t0)).
Proof.
  apply (get_api_schema_unsupported_stop_iteration
           Examples.qbittorrent_client [Examples.transmission_schema]).
  intros s [<-|[]]. discriminate.
Defined.
End DownloadClientFacts.

Section DictMerge.
Context {K V : Type} (eqb : K -> K -> bool).
Hypothesis eqb_eq : forall a b, eqb a b = true <-> a = b.

Lemma dict_set_keys (k : K) (v : V) (d : dict K V) :
  map fst (dict_set eqb k v d) =
  if dict_mem eqb k d then map fst d else map fst d ++ [k].
Proof.
  unfold dict_mem. induction d as [|[k0 v0] d IH]; simpl; [reflexivity|].
  destruct (eqb k k0) eqn:E; simpl; [reflexivity|].
  rewrite IH. now destruct (dict_get eqb k d).
Qed.

Lemma dict_mem_in (k : K) (d : dict K V) :
  dict_mem eqb k d = true <-> In k (map fst d).
Proof.
  unfold dict_mem. induction d as [|[k0 v0] d IH]; simpl.
  - split; [discriminate | tauto].
  - destruct (eqb k k0) eqn:E.
    + apply eqb_eq in E. subst. tauto.
    + rewrite IH. split; [tauto|]. intros [->|H]; [|exact H].
      rewrite (eqb_refl_true eqb eqb_eq) in E. discriminate.
Qed.

(** Assignment keeps the keys of a dictionary distinct. *)
Lemma dict_set_nodup (k : K) (v : V) (d : dict K V) :
  NoDup (map fst d) -> NoDup (map fst (dict_set eqb k v d)).
Proof.
  intros Hnd. rewrite dict_set_keys.
  destruct (dict_mem eqb k d) eqn:E; [exact Hnd|].
  apply NoDup_app; [exact Hnd | repeat constructor; simpl; tauto |].
  intros x Hx [<-|[]]. apply dict_mem_in in Hx. congruence.
Qed.

(** In [{**a, **b}] the entries of [b] win. *)
Lemma dict_get_merge (k : K) (b : dict K V) :
  NoDup (map fst b) ->
  forall a,
    dict_get eqb k (dict_merge eqb a b) =
    match dict_get eqb k b with
    | Some v => Some v
    | None => dict_get eqb k a
    end.
Proof.
  unfold dict_merge.
  induction b as [|[k0 v0] b IH]; intros Hnd a; simpl; [reflexivity|].
  inversion Hnd; subst. rewrite IH by assumption.
  rewrite (dict_get_set eqb eqb_eq).
  destruct (eqb k k0) eqn:E; [|reflexivity].
  apply eqb_eq in E. subst.
  now rewrite (dict_get_not_in eqb eqb_eq).
Qed.
End DictMerge.

(** Key comparison is symmetric and transitive; dictionary membership under
    it follows assignment as expected. *)
Lemma key_eqb_sym (a b : pyval) : key_eqb a b = key_eqb b a.
Proof.
  destruct a, b; simpl; try reflexivity.
  - now destruct b, b0.
  - apply Z.eqb_sym.
  - apply Z.eqb_sym.
  - apply Z.eqb_sym.
  - apply String.eqb_sym.
Qed.



Section FieldMerge.
Import DownloadClient.






(** What [{**f, "value": v}] is: [v] under ["value"], [f] elsewhere, with
    the keys of [f] and, if it had none, ["value"] last. *)
Lemma substituted_value (v : pyval) (d : pydict) :
  dict_get String.eqb "value"%string (dict_set String.eqb "value"%string v d)
    = Some v
  /\ (forall k, k <> "value"%string ->
        dict_get String.eqb k (dict_set String.eqb "value"%string v d) =
        dict_get String.eqb k d).
Proof.
  split.
  - rewrite (dict_get_set String.eqb String.eqb_eq). now rewrite String.eqb_refl.
  - intros k Hk. rewrite (dict_get_set String.eqb String.eqb_eq).
    apply String.eqb_neq in Hk. now rewrite Hk.
Qed.

Lemma bind_result_inr {A B : Type} (r : result A) (f : A -> result B) (b : B) :
  bind_result r f = inr b -> exists a, r = inr a /\ f a = inr b.
Proof. destruct r as [e|a]; simpl; [discriminate|]. eauto. Qed.


End FieldMerge.

(* ================================================================== *)
(** * Further properties of the code                                    *)
(* ================================================================== *)

(** ** Exceptions in the orchestrator *)

(** A list display raises exactly when one of its elements does, after the
    elements before it have returned; the elements after it are not
    evaluated. *)
Lemma list_display_raises_iff {W A : Type} (cs : list (M W A)) :
  forall w e w2,
    list_display cs w = (inl e, w2) <->
    exists pre c post l w1,
      cs = pre ++ c :: post /\ runs pre w l w1 /\ c w1 = (inl e, w2).
Proof.
  induction cs as [|c0 cs IH]; intros w e w2; simpl.
  - unfold ret. split; [discriminate|].
    intros (pre & c & post & l & w1 & Heq & _).
    destruct pre; discriminate.
  - unfold bind at 1. destruct (c0 w) as [[x|a] w1'] eqn:Hc0.
    + split.
      * intros H. inversion H; subst.
        exists [], c0, cs, [], w. repeat split; [constructor | exact Hc0].
      * intros (pre & c & post & l & w1 & Heq & Hr & Hc).
        destruct pre as [|p pre]; simpl in Heq; inversion Heq; subst.
        -- inversion Hr; subst. congruence.
        -- apply runs_cons_inv in Hr.
           destruct Hr as (a & w1'' & l1 & Hp & _). congruence.
    + unfold bind, ret.
      destruct (list_display cs w1') as [[x|l0] w3] eqn:Hd.
      * split.
        -- intros H. inversion H; subst.
           apply IH in Hd.
           destruct Hd as (pre & c & post & l & w1 & Heq & Hr & Hc).
           exists (c0 :: pre), c, post, (a :: l), w1.
           split; [simpl; now rewrite Heq|]. split; [|exact Hc].
           econstructor; eassumption.
        -- intros (pre & c & post & l & w1 & Heq & Hr & Hc).
           destruct pre as [|p pre]; simpl in Heq; inversion Heq; subst.
           ++ inversion Hr; subst. congruence.
           ++ apply runs_cons_inv in Hr.
              destruct Hr as (a' & w1'' & l1 & Hp & Hr & _).
              assert (Hw : w1'' = w1') by congruence. subst w1''.
              assert (Hd' : list_display (pre ++ c :: post) w1' = (inl e, w2)).
              { apply IH. exists pre, c, post, l1, w1. auto. }
              congruence.
      * split; [discriminate|].
        intros (pre & c & post & l & w1 & Heq & Hr & Hc).
        destruct pre as [|p pre]; simpl in Heq; inversion Heq; subst.
        -- inversion Hr; subst. congruence.
        -- apply runs_cons_inv in Hr.
           destruct Hr as (a' & w1'' & l1 & Hp & Hr & _).
           assert (Hw : w1'' = w1') by congruence. subst w1''.
           assert (Hd' : list_display (pre ++ c :: post) w1' = (inl e, w2)).
           { apply IH. exists pre, c, post, l1, w1. auto. }
           congruence.
Qed.

Lemma any_display_raises_iff {W : Type} (cs : list (M W bool)) w e w2 :
  bind (list_display cs) (fun bs => ret (any bs)) w = (inl e, w2) <->
  list_display cs w = (inl e, w2).
Proof.
  unfold bind, ret. destruct (list_display cs w) as [[x|bs] w1]; split;
    intros H; try discriminate; inversion H; reflexivity.
Qed.

Lemma map_split_raises {A B : Type} (f : A -> B) (order : list A)
    (pre : list B) (c : B) (post : list B) :
  map f order = pre ++ c :: post ->
  exists pre' s post',
    order = pre' ++ s :: post' /\ map f pre' = pre /\ f s = c.
Proof.
  intros H. apply map_eq_app in H.
  destruct H as (pre' & rest & Ho & Hp & Hr).
  apply map_eq_cons in Hr. destruct Hr as (s & post' & Hrest & Hs & _).
  exists pre', s, post'. subst. auto.
Qed.

Section OrchestratorExceptions.
Import SonarrSettings.
Context {World Secrets : Type} {Cfg : SectionName -> Type}.
Variable upd :
  forall s, Cfg s -> string -> Secrets -> Cfg s -> bool -> M World bool.
Variable del :
  forall s, Cfg s -> string -> Secrets -> Cfg s -> M World bool.

(** [update_remote] raises [e] exactly when some section raises [e] after
    the sections before it in the update order have returned normally; the
    world is left as the raising section left it, and no later section
    runs. *)
Theorem update_remote_raises_with_first_failing_section :
  forall self tree secrets remote check_unmanaged w e w2,
    SonarrSettings.update_remote upd self tree secrets remote check_unmanaged w
      = (inl e, w2) <->
    exists pre s post bs w1,
      update_order = pre ++ s :: post
      /\ runs (map (update_section upd self tree secrets remote check_unmanaged)
                   pre) w bs w1
      /\ update_section upd self tree secrets remote check_unmanaged s w1
         = (inl e, w2).
Proof.
  intros. rewrite update_remote_unfold, any_display_raises_iff,
    list_display_raises_iff.
  split.
  - intros (pre & c & post & l & w1 & Heq & Hr & Hc).
    apply map_split_raises in Heq.
    destruct Heq as (pre' & s & post' & Ho & Hp & Hs). subst.
    exists pre', s, post', l, w1. auto.
  - intros (pre & s & post & bs & w1 & Ho & Hr & Hs).
    eexists _, _, _, bs, w1. split; [|split; [exact Hr | exact Hs]].
    rewrite Ho, map_app. reflexivity.
Qed.

(** The same for [delete_remote], in the deletion order. *)
Theorem delete_remote_raises_with_first_failing_section :
  forall self tree secrets remote w e w2,
    SonarrSettings.delete_remote del self tree secrets remote w = (inl e, w2) <->
    exists pre s post bs w1,
      delete_order = pre ++ s :: post
      /\ runs (map (delete_section del self tree secrets remote) pre) w bs w1
      /\ delete_section del self tree secrets remote s w1 = (inl e, w2).
Proof.
  intros. rewrite delete_remote_unfold, any_display_raises_iff,
    list_display_raises_iff.
  split.
  - intros (pre & c & post & l & w1 & Heq & Hr & Hc).
    apply map_split_raises in Heq.
    destruct Heq as (pre' & s & post' & Ho & Hp & Hs). subst.
    exists pre', s, post', l, w1. auto.
  - intros (pre & s & post & bs & w1 & Ho & Hr & Hs).
    eexists _, _, _, bs, w1. split; [|split; [exact Hr | exact Hs]].
    rewrite Ho, map_app. reflexivity.
Qed.
End OrchestratorExceptions.

(** A server error in the indexers section: the four sections before it have
    run, the five after it have not. *)
Lemma update_remote_raises_witness :
  SonarrSettings.update_remote Scenarios.failing_update Examples.tags_changed
    "sonarr.settings" tt Examples.tags_changed false []
  = (inl (SonarrAPIError 500),
     [SonarrSettings.Tags; SonarrSettings.Quality; SonarrSettings.CustomFormats;
      SonarrSettings.DownloadClients; SonarrSettings.Indexers]).
Proof.
  apply (proj2 (update_remote_raises_with_first_failing_section
                  Scenarios.failing_update Examples.tags_changed
                  "sonarr.settings" tt Examples.tags_changed false []
                  (SonarrAPIError 500) _)).
  exists [SonarrSettings.Tags; SonarrSettings.Quality;
          SonarrSettings.CustomFormats; SonarrSettings.DownloadClients],
    SonarrSettings.Indexers,
    [SonarrSettings.MediaManagement; SonarrSettings.Profiles;
     SonarrSettings.Metadata; SonarrSettings.General; SonarrSettings.UI],
    [true; false; false; false],
    [SonarrSettings.Tags; SonarrSettings.Quality; SonarrSettings.CustomFormats;
     SonarrSettings.DownloadClients].
  split; [reflexivity|]. split; [|reflexivity].
  repeat (econstructor; [reflexivity|]). constructor.
Defined.

Lemma delete_remote_raises_witness :
  SonarrSettings.delete_remote Scenarios.failing_delete Examples.profiles_changed
    "sonarr.settings" tt Examples.profiles_changed []
  = (inl (SonarrAPIError 500),
     [SonarrSettings.Profiles; SonarrSettings.Indexers]).
Proof.
  apply (proj2 (delete_remote_raises_with_first_failing_section
                  Scenarios.failing_delete Examples.profiles_changed
                  "sonarr.settings" tt Examples.profiles_changed []
                  (SonarrAPIError 500) _)).
  exists [SonarrSettings.Profiles], SonarrSettings.Indexers,
    [SonarrSettings.DownloadClients; SonarrSettings.MediaManagement;
     SonarrSettings.Tags; SonarrSettings.CustomFormats; SonarrSettings.Quality;
     SonarrSettings.Metadata; SonarrSettings.General; SonarrSettings.UI],
    [true], [SonarrSettings.Profiles].
  split; [reflexivity|]. split; [|reflexivity].
  repeat (econstructor; [reflexivity|]). constructor.
Defined.

(** ** Tags: reading the remote, and running twice *)

Section TagsRuns.
Import SonarrTagsSettings.

(** What a run of [update_remote] does, whatever the labels. *)
Lemma tags_update_remote_calls (self : SonarrTagsSettings.t) (tree : string)
    (list_tag : list TagResource) (remote : SonarrTagsSettings.t)
    (check_unmanaged : bool) (t0 : trace) :
  exists emitted,
    SonarrTagsSettings.update_remote self tree list_tag remote
      check_unmanaged t0 =
      (inr (existsb (absent list_tag) self.(definitions)), t0 ++ emitted)
    /\ api_calls emitted =
         map create_tag (filter (absent list_tag) self.(definitions)).
Proof.
  unfold SonarrTagsSettings.update_remote.
  destruct (definitions self) as [|tag rest] eqn:Hd.
  - exists []. unfold ret. now rewrite app_nil_r.
  - apply (update_loop_spec tree list_tag _ (current_tags_mem list_tag)
             (tag :: rest) 0 false t0).
Qed.

Lemma api_calls_subset (t : trace) (e : event) :
  In e (api_calls t) -> In e t.
Proof. unfold api_calls. rewrite filter_In. tauto. Qed.

(** The configuration read from the remote side is a fixed point: applied to
    the listing it was read from, [update_remote] returns [False] and makes
    no API call. *)
Theorem tags_from_remote_is_fixed_point :
  forall list_tag tree remote check_unmanaged t0,
  exists emitted,
    SonarrTagsSettings.update_remote (from_remote list_tag) tree list_tag
      remote check_unmanaged t0 = (inr false, t0 ++ emitted)
    /\ api_calls emitted = [].
Proof.
  intros list_tag tree remote cu t0.
  destruct (tags_update_remote_calls (from_remote list_tag) tree list_tag
              remote cu t0) as [em [Hrun Hcalls]].
  assert (Hnone : forall tag, In tag (definitions (from_remote list_tag)) ->
                              absent list_tag tag = false).
  { intros tag Hin. simpl in Hin. apply nodup_In in Hin.
    apply not_true_iff_false. intros Ha. now apply absent_iff in Ha. }
  exists em. split.
  - rewrite Hrun. f_equal. f_equal.
    apply not_true_iff_false. rewrite existsb_exists.
    intros [tag [Hin Ha]]. rewrite (Hnone tag Hin) in Ha. discriminate.
  - rewrite Hcalls, (filter_none _ _ Hnone). reflexivity.
Qed.

(** Running twice: once the remote side lists the labels it listed before
    and the labels the first run created, a second run returns [False] and
    makes no API call. *)
Theorem tags_update_remote_second_run_is_noop :
  forall self tree list_tag remote check_unmanaged t0 b emitted
         tree' list_tag' remote' check_unmanaged' t1,
    SonarrTagsSettings.update_remote self tree list_tag remote
      check_unmanaged t0 = (inr b, t0 ++ emitted) ->
    (forall tag, In tag (map label list_tag) -> In tag (map label list_tag')) ->
    (forall tag, In (create_tag tag) emitted -> In tag (map label list_tag')) ->
    exists emitted',
      SonarrTagsSettings.update_remote self tree' list_tag' remote'
        check_unmanaged' t1 = (inr false, t1 ++ emitted')
      /\ api_calls emitted' = [].
Proof.
  intros self tree list_tag remote cu t0 b emitted tree' list_tag' remote'
    cu' t1 Hfirst Hkept Hcreated.
  destruct (tags_update_remote_calls self tree list_tag remote cu t0)
    as [em [Hrun Hcalls]].
  assert (Hem : em = emitted).
  { rewrite Hrun in Hfirst. inversion Hfirst as [[Hb Ht]].
    now apply app_inv_head in Ht. }
  subst em.
  assert (Hnone : forall tag, In tag (definitions self) ->
                              absent list_tag' tag = false).
  { intros tag Hin. apply not_true_iff_false. intros Ha.
    apply absent_iff in Ha. apply Ha.
    destruct (absent list_tag tag) eqn:Ea.
    - apply Hcreated. apply api_calls_subset. rewrite Hcalls.
      apply in_map. apply filter_In. now split.
    - apply Hkept. apply not_true_iff_false in Ea.
      destruct (in_dec string_dec tag (map label list_tag)) as [Hi|Hn];
        [exact Hi|].
      exfalso. apply Ea. now apply absent_iff. }
  destruct (tags_update_remote_calls self tree' list_tag' remote' cu' t1)
    as [em' [Hrun' Hcalls']].
  exists em'. split.
  - rewrite Hrun'. f_equal. f_equal.
    apply not_true_iff_false. rewrite existsb_exists.
    intros [tag [Hin Ha]]. rewrite (Hnone tag Hin) in Ha. discriminate.
  - rewrite Hcalls', (filter_none _ _ Hnone). reflexivity.
Qed.
End TagsRuns.

Lemma tags_update_remote_second_run_witness :
  exists emitted',
    SonarrTagsSettings.update_remote Examples.local_tags "sonarr.settings.tags"
      Scenarios.listed_tags_after Examples.local_tags false []
    = (inr false, [] ++ emitted')
    /\ api_calls emitted' = [].
Proof.
  apply (tags_update_remote_second_run_is_noop Examples.local_tags
           "sonarr.settings.tags" Examples.listed_tags Examples.local_tags
           false [] true _ "sonarr.settings.tags" Scenarios.listed_tags_after
           Examples.local_tags false [] eq_refl).
  - simpl. intros tag [<-|[]]. auto.
  - simpl. intros tag [H|[H|[H|[]]]]; inversion H; subst. auto.
Defined.

(** ** List exclusions: every path of the two passes *)

Section ExclusionPaths.
Import ListExclusion ListExclusionsSettings.

Lemma by_tmdb_id_values_in (xs : list ListExclusion.t) (x : ListExclusion.t) :
  In x (dict_values (by_tmdb_id xs)) -> In x xs.
Proof.
  intros Hin. unfold dict_values in Hin. apply in_map_iff in Hin.
  destruct Hin as [[k v] [Hv Hkv]]. simpl in Hv. subst v.
  assert (Hall : Forall (fun kv => In (snd kv) xs) (by_tmdb_id xs)).
  { unfold by_tmdb_id. apply (dict_of_items_forall Z.eqb Z.eqb_eq).
    apply Forall_forall. intros kv H. apply in_map_iff in H.
    destruct H as [y [<- Hy]]. exact Hy. }
  rewrite Forall_forall in Hall. exact (Hall _ Hkv).
Qed.

(** Whatever the dictionaries, the update loop only adds to the trace, and
    the events it records itself are create and update calls (the log lines
    of the attribute helpers of the core library are not recorded). *)
Lemma update_loop_kinds (tree : string)
    (api : dict Z ImportExclusionsResource) (remote : dict Z ListExclusion.t) :
  forall values i changed t0,
  exists r emitted,
    update_loop tree api remote i values changed t0 = (r, t0 ++ emitted)
    /\ Forall (fun e => is_create_or_update e = true) emitted.
Proof.
  induction values as [|x rest IH]; intros i changed t0; simpl.
  - exists (inr changed), []. unfold ret. rewrite app_nil_r. auto.
  - destruct (dict_mem Z.eqb (tmdb_id x) remote) eqn:Em; simpl.
    + rewrite bind_lift. unfold dict_index. unfold dict_mem in Em.
      destruct (dict_get Z.eqb (tmdb_id x) remote) as [r0|]; [|discriminate].
      rewrite bind_lift.
      destruct (dict_get Z.eqb (tmdb_id x) api) as [a|].
      * unfold bind at 1. rewrite exclusion_update_remote_spec.
        destruct (IH (i + 1) (if differs x r0 then true else changed)
                    (t0 ++ (if differs x r0
                            then [update_exclusions (str_of_int a.(id))
                                    (("id"%string, PyInt a.(id))
                                     :: remote_attrs x)]
                            else []))) as [r [em [Hrun Hall]]].
        exists r. eexists. rewrite Hrun, <- app_assoc. split; [reflexivity|].
        apply Forall_app. split; [|exact Hall].
        destruct (differs x r0); repeat constructor.
      * exists (inl KeyError), []. rewrite app_nil_r. auto.
    + unfold _create_remote. rewrite bind_emit.
      destruct (IH (i + 1) true
                  (t0 ++ [create_exclusions
                            (get_create_remote_attrs x (definitions_tree tree i)
                               _remote_map)])) as [r [em [Hrun Hall]]].
      exists r. eexists. rewrite Hrun, <- app_assoc. split; [reflexivity|].
      constructor; [reflexivity | exact Hall].
Qed.

(** Whatever the dictionaries, the deletion loop only logs and deletes. *)
Lemma delete_loop_kinds (self : ListExclusionsSettings.t) (tree : string)
    (api : dict Z ImportExclusionsResource) (local : dict Z ListExclusion.t) :
  forall values i changed t0,
  exists r emitted,
    delete_loop self tree api local i values changed t0 = (r, t0 ++ emitted)
    /\ Forall (fun e => is_log_or_delete e = true) emitted.
Proof.
  induction values as [|x rest IH]; intros i changed t0; simpl.
  - exists (inr changed), []. unfold ret. rewrite app_nil_r. auto.
  - destruct (dict_mem Z.eqb (tmdb_id x) local); simpl.
    + apply IH.
    + destruct (delete_unmanaged self).
      * rewrite bind_emit, bind_lift. unfold dict_index.
        destruct (dict_get Z.eqb (tmdb_id x) api) as [a|].
        -- unfold _delete_remote. rewrite bind_emit.
           destruct (IH (i - -1) true
                       ((t0 ++ [Log INFO "%s: (...) -> (deleted)"
                                  [ArgStr (definitions_tree tree i)]])
                           ++ [delete_exclusions (id a)]))
             as [r [em [Hrun Hall]]].
           exists r. eexists. rewrite Hrun, <- !app_assoc.
           split; [reflexivity|]. repeat (constructor; [reflexivity|]).
           exact Hall.
        -- exists (inl KeyError). eexists. split; [reflexivity|].
           repeat constructor.
      * rewrite bind_emit.
        destruct (IH (i - -1) changed
                    (t0 ++ [Log DEBUG "%s: (...) (unmanaged)"
                              [ArgStr (definitions_tree tree i)]]))
          as [r [em [Hrun Hall]]].
        exists r. eexists. rewrite Hrun, <- !app_assoc.
        split; [reflexivity|]. constructor; [reflexivity | exact Hall].
Qed.

(** On every path, also the failing ones, the mutating API calls that
    [update_remote] adds to the trace are create and update calls of the
    exclusions API (it never deletes), and those that [delete_remote] adds
    are delete calls of that API (it never creates or updates). Log lines
    are no part of the statement. *)
Theorem exclusions_passes_keep_to_their_calls :
  forall self tree list_exclusions remote check_unmanaged t0,
    (exists r emitted,
       ListExclusionsSettings.update_remote self tree list_exclusions remote
         check_unmanaged t0 = (r, t0 ++ emitted)
       /\ forall e, In e (api_calls emitted) ->
            (exists resource, e = create_exclusions resource)
            \/ (exists i resource, e = update_exclusions i resource))
    /\ (exists r emitted,
          ListExclusionsSettings.delete_remote self tree list_exclusions
            remote t0 = (r, t0 ++ emitted)
          /\ forall e, In e (api_calls emitted) ->
               exists n, e = delete_exclusions n).
Proof.
  intros self tree le remote check_unmanaged t0. split.
  - assert (H : exists r emitted,
               ListExclusionsSettings.update_remote self tree le remote
                 check_unmanaged t0 = (r, t0 ++ emitted)
               /\ Forall (fun e => is_create_or_update e = true) emitted)
      by apply update_loop_kinds.
    destruct H as [r [em [Hrun Hall]]]. exists r, em.
    split; [exact Hrun|]. intros e He. apply api_calls_subset in He.
    rewrite Forall_forall in Hall. specialize (Hall e He).
    destruct e; try discriminate; eauto.
  - assert (H : exists r emitted,
               ListExclusionsSettings.delete_remote self tree le remote t0
               = (r, t0 ++ emitted)
               /\ Forall (fun e => is_log_or_delete e = true) emitted)
      by apply delete_loop_kinds.
    destruct H as [r [em [Hrun Hall]]]. exists r, em.
    split; [exact Hrun|]. intros e He. unfold api_calls in He.
    apply filter_In in He. destruct He as [He Hcall].
    rewrite Forall_forall in Hall. specialize (Hall e He).
    destruct e; try discriminate; eauto.
Qed.

(** Without [delete_unmanaged], [delete_remote] returns [False] and makes no
    API call, whatever the configurations and whatever the listing: it never
    raises. *)
Theorem exclusions_delete_remote_unset_never_fails :
  forall self tree list_exclusions remote t0,
    self.(delete_unmanaged) = false ->
    exists emitted,
      ListExclusionsSettings.delete_remote self tree list_exclusions remote t0
        = (inr false, t0 ++ emitted)
      /\ api_calls emitted = [].
Proof.
  intros self tree le remote t0 Hdu.
  unfold ListExclusionsSettings.delete_remote.
  destruct (delete_loop_spec self tree le
              (dict_values (by_tmdb_id remote.(definitions))) (-1) false t0)
    as [em [Hrun [Hcalls _]]].
  { rewrite Hdu. discriminate. }
  rewrite Hdu in *. simpl in *. exists em. auto.
Qed.

(** The deletion loop stops with [KeyError] at an unmanaged exclusion that
    the fresh listing does not hold, just after logging its deletion. *)
Lemma delete_loop_keyerror (self : ListExclusionsSettings.t) (tree : string)
    (le : list ImportExclusionsResource) :
  self.(delete_unmanaged) = true ->
  forall values i changed t0 x0,
    In x0 values ->
    keyed_in self.(definitions) x0 = false ->
    api_resource le x0.(tmdb_id) = None ->
    exists emitted tree',
      delete_loop self tree (api_by_tmdb_id le)
        (by_tmdb_id self.(definitions)) i values changed t0 =
        (inl KeyError,
         t0 ++ emitted
            ++ [Log INFO "%s: (...) -> (deleted)" [ArgStr tree']]).
Proof.
  intros Hdu.
  induction values as [|x rest IH]; intros i changed t0 x0 Hin Hk Ha;
    [destruct Hin|].
  simpl. rewrite by_tmdb_id_mem.
  destruct (keyed_in (definitions self) x) eqn:Ekx; simpl.
  - destruct Hin as [->|Hin]; [congruence|].
    apply (IH i changed t0 x0 Hin Hk Ha).
  - rewrite Hdu, bind_emit, bind_lift. unfold dict_index.
    destruct (dict_get Z.eqb (tmdb_id x) (api_by_tmdb_id le)) as [a|] eqn:Ea.
    + destruct Hin as [->|Hin];
        [unfold api_resource in Ha; congruence|].
      unfold _delete_remote. rewrite bind_emit.
      destruct (IH (i - -1) true
                  ((t0 ++ [Log INFO "%s: (...) -> (deleted)"
                             [ArgStr (definitions_tree tree i)]])
                      ++ [delete_exclusions (id a)]) x0 Hin Hk Ha)
        as [em [tree' Hrun]].
      exists ([Log INFO "%s: (...) -> (deleted)"
                 [ArgStr (definitions_tree tree i)];
               delete_exclusions (id a)] ++ em), tree'.
      rewrite Hrun, <- !app_assoc. reflexivity.
    + exists [], (definitions_tree tree i). reflexivity.
Qed.

(** With [delete_unmanaged] set, a remote exclusion that no local exclusion
    matches and that the fresh listing does not hold makes [delete_remote]
    raise [KeyError]; the last thing it did was to log a deletion that has
    not happened. *)
Theorem exclusions_delete_remote_keyerror :
  forall self tree list_exclusions remote t0 l,
    self.(delete_unmanaged) = true ->
    In l remote.(definitions) ->
    ~ In l.(tmdb_id) (map tmdb_id self.(definitions)) ->
    ~ In l.(tmdb_id) (map res_tmdb_id list_exclusions) ->
    exists emitted tree',
      ListExclusionsSettings.delete_remote self tree list_exclusions remote t0
        = (inl KeyError,
           t0 ++ emitted
              ++ [Log INFO "%s: (...) -> (deleted)" [ArgStr tree']]).
Proof.
  intros self tree le remote t0 l Hdu Hin Hlocal Hlisted.
  destruct (by_tmdb_id_values_key _ _ Hin) as [x0 [Hx0 Hkey]].
  apply (delete_loop_keyerror self tree le Hdu _ (-1) false t0 x0 Hx0).
  - apply keyed_in_false_iff. now rewrite Hkey.
  - rewrite Hkey.
    destruct (api_resource le (tmdb_id l)) eqn:Ea; [|reflexivity].
    exfalso. apply Hlisted. apply api_resource_some_iff. congruence.
Qed.
End ExclusionPaths.

Lemma exclusions_delete_remote_unset_witness :
  exists emitted,
    ListExclusionsSettings.delete_remote
      (Examples.exclusions false [Examples.ex_a]) "sonarr.settings.exclusions"
      [] (Examples.exclusions false [Examples.ex_b; Examples.ex_c]) []
    = (inr false, [] ++ emitted)
    /\ api_calls emitted = [].
Proof.
  apply (exclusions_delete_remote_unset_never_fails
           (Examples.exclusions false [Examples.ex_a])
           "sonarr.settings.exclusions" []
           (Examples.exclusions false [Examples.ex_b; Examples.ex_c]) []).
  reflexivity.
Defined.

Lemma exclusions_delete_remote_keyerror_witness :
  exists emitted tree',
    ListExclusionsSettings.delete_remote
      (Examples.exclusions true [Examples.ex_a]) "sonarr.settings.exclusions"
      [Examples.res_b]
      (Examples.exclusions false [Examples.ex_b; Examples.ex_c]) []
    = (inl KeyError,
       [] ++ emitted ++ [Log INFO "%s: (...) -> (deleted)" [ArgStr tree']]).
Proof.
  apply (exclusions_delete_remote_keyerror
           (Examples.exclusions true [Examples.ex_a])
           "sonarr.settings.exclusions" [Examples.res_b]
           (Examples.exclusions false [Examples.ex_b; Examples.ex_c]) []
           Examples.ex_c).
  - reflexivity.
  - simpl. auto.
  - simpl. intuition discriminate.
  - simpl. intuition discriminate.
Defined.

(** ** List exclusions: the changed flag, and collections in sync *)

Section ExclusionSync.
Import ListExclusion ListExclusionsSettings.

Lemma update_calls_are_api_calls (le : list ImportExclusionsResource)
    (rd : list ListExclusion.t) (xs : list ListExclusion.t) :
  api_calls (flat_map (update_calls_for le rd) xs) =
  flat_map (update_calls_for le rd) xs.
Proof.
  induction xs as [|x xs IH]; simpl; [reflexivity|].
  rewrite api_calls_app, IH. f_equal.
  unfold update_calls_for.
  destruct (find (fun r => tmdb_id x =? tmdb_id r) rd) as [r|]; [|reflexivity].
  destruct (api_resource le (tmdb_id x)); [|reflexivity].
  now destruct (differs x r).
Qed.

(** The changed flag is truthful: on a remote collection with unique keys
    that the fresh listing holds, each of the two passes returns [True] if
    and only if it has made at least one API call. *)
Theorem exclusions_changed_iff_api_call :
  forall self tree list_exclusions remote check_unmanaged t0,
    NoDup (map tmdb_id remote.(definitions)) ->
    (forall k, In k (map tmdb_id remote.(definitions)) ->
               In k (map res_tmdb_id list_exclusions)) ->
    (exists b emitted,
       ListExclusionsSettings.update_remote self tree list_exclusions remote
         check_unmanaged t0 = (inr b, t0 ++ emitted)
       /\ (b = true <-> api_calls emitted <> []))
    /\ (exists b emitted,
          ListExclusionsSettings.delete_remote self tree list_exclusions
            remote t0 = (inr b, t0 ++ emitted)
          /\ (b = true <-> api_calls emitted <> [])).
Proof.
  intros self tree le remote cu t0 Hremote Hlisted. split.
  - unfold ListExclusionsSettings.update_remote.
    destruct (update_loop_ok tree le remote.(definitions) Hremote
                (dict_values (by_tmdb_id self.(definitions))) 0 false t0)
      as [b [Hrun Hb]].
    { intros x _ Hk. apply api_resource_some_iff, Hlisted.
      now apply keyed_in_iff. }
    exists b. eexists. split; [exact Hrun|].
    rewrite update_calls_are_api_calls, Hb. split.
    + intros [H|H]; [discriminate | exact H].
    + intros H. now right.
  - unfold ListExclusionsSettings.delete_remote.
    destruct (delete_loop_spec self tree le
                (dict_values (by_tmdb_id remote.(definitions))) (-1) false t0)
      as [em [Hrun [Hcalls _]]].
    { intros _ x Hx _. apply api_resource_some_iff, Hlisted.
      apply by_tmdb_id_values_in in Hx. now apply in_map. }
    eexists. exists em. split; [exact Hrun|]. simpl.
    destruct (delete_unmanaged self); simpl.
    + apply Forall2_length in Hcalls. rewrite negb_true_iff, Nat.eqb_neq.
      rewrite Hcalls. split.
      * intros Hn Hnil. apply Hn. now rewrite Hnil.
      * intros Hn Hlen. apply Hn. now apply length_zero_iff_nil.
    + rewrite Hcalls. split; [discriminate | intros H; now elim H].
Qed.

Lemma flat_map_nil_all {A B : Type} (f : A -> list B) (l : list A) :
  (forall x, In x l -> f x = []) -> flat_map f l = [].
Proof.
  induction l as [|x l IH]; simpl; intros H; [reflexivity|].
  rewrite (H x) by now left. apply IH. intros y Hy. apply H. now right.
Qed.

Lemma differs_same (x : ListExclusion.t) : differs x x = false.
Proof.
  unfold differs. now rewrite !Z.eqb_refl, String.eqb_refl.
Qed.

Lemma update_calls_for_same (le : list ImportExclusionsResource)
    (rd : list ListExclusion.t) (x : ListExclusion.t) :
  NoDup (map tmdb_id rd) -> In x rd -> update_calls_for le rd x = [].
Proof.
  intros Hnd Hin. unfold update_calls_for.
  destruct (find (fun r => tmdb_id x =? tmdb_id r) rd) as [r|] eqn:Ef.
  - apply find_some in Ef. destruct Ef as [Hr Heq]. apply Z.eqb_eq in Heq.
    assert (r = x) by (apply (NoDup_map_inj tmdb_id rd); auto).
    subst r. rewrite differs_same.
    now destruct (api_resource le (tmdb_id x)).
  - apply (find_none _ _ Ef) in Hin. now rewrite Z.eqb_refl in Hin.
Qed.

Lemma delete_loop_all_keyed (self : ListExclusionsSettings.t) (tree : string)
    (api : dict Z ImportExclusionsResource) :
  forall values i changed t0,
    (forall x, In x values -> keyed_in self.(definitions) x = true) ->
    delete_loop self tree api (by_tmdb_id self.(definitions)) i values
      changed t0 = (inr changed, t0).
Proof.
  induction values as [|x rest IH]; intros i changed t0 Hall; simpl.
  - reflexivity.
  - rewrite by_tmdb_id_mem, (Hall x) by now left. simpl.
    apply IH. intros y Hy. apply Hall. now right.
Qed.

(** Collections in sync: when the local and the remote collection hold the
    same exclusions (in whatever order), with unique keys that the fresh
    listing holds, [update_remote] and [delete_remote] return [False] and
    leave the trace as it is, also with [delete_unmanaged] set. *)
Theorem exclusions_in_sync_is_noop :
  forall self tree list_exclusions remote check_unmanaged t0,
    NoDup (map tmdb_id self.(definitions)) ->
    Permutation.Permutation self.(definitions) remote.(definitions) ->
    (forall x, In x self.(definitions) ->
               In x.(tmdb_id) (map res_tmdb_id list_exclusions)) ->
    ListExclusionsSettings.update_remote self tree list_exclusions remote
      check_unmanaged t0 = (inr false, t0)
    /\ ListExclusionsSettings.delete_remote self tree list_exclusions remote
         t0 = (inr false, t0).
Proof.
  intros self tree le remote cu t0 Hlocal Hperm Hlisted.
  assert (Hremote : NoDup (map tmdb_id remote.(definitions))).
  { apply (Permutation.Permutation_NoDup
             (Permutation.Permutation_map tmdb_id Hperm) Hlocal). }
  split.
  - unfold ListExclusionsSettings.update_remote.
    rewrite (by_tmdb_id_values_nodup self.(definitions)) by assumption.
    destruct (update_loop_ok tree le remote.(definitions) Hremote
                self.(definitions) 0 false t0) as [b [Hrun Hb]].
    { intros x Hx _. apply api_resource_some_iff. now apply Hlisted. }
    assert (Hnil : flat_map (update_calls_for le remote.(definitions))
                     self.(definitions) = []).
    { apply flat_map_nil_all. intros x Hx.
      apply update_calls_for_same; [exact Hremote|].
      now apply (Permutation.Permutation_in _ Hperm). }
    rewrite Hrun, Hnil, app_nil_r. f_equal. f_equal.
    destruct b; [|reflexivity].
    destruct (proj1 Hb eq_refl) as [H|H]; [discriminate|].
    rewrite Hnil in H. now elim H.
  - unfold ListExclusionsSettings.delete_remote.
    rewrite (by_tmdb_id_values_nodup remote.(definitions)) by assumption.
    apply delete_loop_all_keyed.
    intros x Hx. apply keyed_in_iff. apply in_map.
    apply (Permutation.Permutation_in _ (Permutation.Permutation_sym Hperm) Hx).
Qed.

(** What [_from_remote] gives: the three attributes of the resource, when
    they pass the field types. *)
Lemma from_remote_eq (r : ImportExclusionsResource) :
  _from_remote r =
  let x := {| tmdb_id := r.(res_tmdb_id); title := r.(movie_title);
              year := r.(movie_year) |} in
  if valid x then Some x else None.
Proof. reflexivity. Qed.

(** Projection round trip. An exclusion read from a resource projects back
    to the attributes of that resource, so that merging them into the
    resource changes nothing; an exclusion that passes the field types is
    read back from any resource that carries its attributes; and reading
    fails exactly on a non-positive id or year or an empty title. *)
Theorem exclusion_projection_roundtrip :
  (forall r x tree,
     _from_remote r = Some x ->
     get_create_remote_attrs x tree _remote_map
       = [("tmdbId", PyInt r.(res_tmdb_id));
          ("movieTitle", PyStr r.(movie_title));
          ("movieYear", PyInt r.(movie_year))]%string
     /\ dict_merge String.eqb (to_dict r)
          (get_create_remote_attrs x tree _remote_map) = to_dict r)
  /\ (forall x i,
        valid x = true ->
        _from_remote {| id := i; res_tmdb_id := x.(tmdb_id);
                        movie_title := x.(title); movie_year := x.(year) |}
        = Some x)
  /\ (forall r,
        _from_remote r = None <->
        r.(res_tmdb_id) <= 0 \/ r.(movie_title) = ""%string
        \/ r.(movie_year) <= 0).
Proof.
  split; [|split].
  - intros r x tree H. rewrite from_remote_eq in H. simpl in H.
    destruct (valid _); [|discriminate]. inversion H; subst x.
    split; reflexivity.
  - intros x i Hv. rewrite from_remote_eq. simpl.
    destruct x as [k ti y]. simpl. now rewrite Hv.
  - intros r. rewrite from_remote_eq. simpl. unfold valid. simpl.
    destruct (0 <? res_tmdb_id r) eqn:E1; simpl.
    + destruct (String.eqb (movie_title r) "") eqn:E2; simpl.
      * apply String.eqb_eq in E2. split; [auto | reflexivity].
      * destruct (0 <? movie_year r) eqn:E3.
        -- split; [discriminate|]. apply Z.ltb_lt in E1, E3.
           apply String.eqb_neq in E2. intros [H|[H|H]]; [lia | tauto | lia].
        -- apply Z.ltb_ge in E3. split; auto.
    + apply Z.ltb_ge in E1. split; auto.
Qed.

Lemma from_remote_each_keys (le : list ImportExclusionsResource) :
  forall xs, from_remote_each le = Some xs ->
             map tmdb_id xs = map res_tmdb_id le.
Proof.
  induction le as [|r le IH]; intros xs; simpl.
  - intros H. now inversion H.
  - rewrite from_remote_eq. simpl.
    destruct (valid _); [|discriminate].
    destruct (from_remote_each le) as [xs'|]; [|discriminate].
    intros H. inversion H. simpl. now rewrite (IH xs' eq_refl).
Qed.

(** The configuration read from the remote side is a fixed point: with
    unique [tmdb_id]s in the listing, applying it to the listing it was read
    from makes neither pass do anything, also with [delete_unmanaged] set. *)
Theorem exclusions_from_remote_is_fixed_point :
  forall list_exclusions cfg tree check_unmanaged delete_unmanaged t0,
    from_remote list_exclusions = Some cfg ->
    NoDup (map res_tmdb_id list_exclusions) ->
    ListExclusionsSettings.update_remote cfg tree list_exclusions cfg
      check_unmanaged t0 = (inr false, t0)
    /\ ListExclusionsSettings.delete_remote
         {| ListExclusionsSettings.delete_unmanaged := delete_unmanaged;
            definitions := cfg.(definitions) |}
         tree list_exclusions cfg t0 = (inr false, t0).
Proof.
  intros le cfg tree cu du t0 Hfrom Hnd.
  unfold from_remote in Hfrom.
  destruct (from_remote_each le) as [xs|] eqn:Hxs; [|discriminate].
  inversion Hfrom; subst cfg. clear Hfrom. simpl.
  pose proof (from_remote_each_keys le xs Hxs) as Hkeys.
  assert (Hxsnd : NoDup (map tmdb_id xs)) by now rewrite Hkeys.
  rewrite (nodup_fixed_point ListExclusion.eq_dec
             (NoDup_of_map tmdb_id xs Hxsnd)).
  assert (Hlisted : forall x, In x xs -> keyed_in xs x = true ->
                              api_resource le (tmdb_id x) <> None).
  { intros x Hx _. apply api_resource_some_iff.
    rewrite <- Hkeys. now apply in_map. }
  assert (Hkeyed : forall x, In x xs -> keyed_in xs x = true).
  { intros x Hx. apply keyed_in_iff. now apply in_map. }
  split.
  - unfold ListExclusionsSettings.update_remote. simpl.
    rewrite (by_tmdb_id_values_nodup xs Hxsnd).
    destruct (update_loop_ok tree le xs Hxsnd xs 0 false t0 Hlisted)
      as [b [Hrun Hb]].
    assert (Hnil : flat_map (update_calls_for le xs) xs = []).
    { apply flat_map_nil_all. intros x Hx.
      now apply update_calls_for_same. }
    rewrite Hrun, Hnil, app_nil_r. f_equal. f_equal.
    destruct b; [|reflexivity].
    destruct (proj1 Hb eq_refl) as [H|H]; [discriminate|].
    rewrite Hnil in H. now elim H.
  - unfold ListExclusionsSettings.delete_remote. simpl.
    rewrite (by_tmdb_id_values_nodup xs Hxsnd).
    apply (delete_loop_all_keyed
             {| ListExclusionsSettings.delete_unmanaged := du;
                definitions := xs |}).
    exact Hkeyed.
Qed.
End ExclusionSync.

Lemma exclusions_changed_iff_api_call_witness :
  exists b emitted,
    ListExclusionsSettings.update_remote
      (Examples.exclusions false [Examples.ex_a; Examples.ex_c])
      "sonarr.settings.exclusions" [Examples.res_b]
      (Examples.exclusions false [Examples.ex_b]) false []
    = (inr b, [] ++ emitted)
    /\ (b = true <-> api_calls emitted <> []).
Proof.
  apply (exclusions_changed_iff_api_call
           (Examples.exclusions false [Examples.ex_a; Examples.ex_c])
           "sonarr.settings.exclusions" [Examples.res_b]
           (Examples.exclusions false [Examples.ex_b]) false []).
  - repeat (constructor; [simpl; intuition discriminate|]). constructor.
  - intros k Hk. exact Hk.
Defined.

Lemma exclusions_in_sync_witness :
  ListExclusionsSettings.update_remote
    (Examples.exclusions true [Examples.ex_b; Examples.ex_c])
    "sonarr.settings.exclusions" [Examples.res_b; Examples.res_c]
    (Examples.exclusions false [Examples.ex_c; Examples.ex_b]) false []
  = (inr false, [])
  /\ ListExclusionsSettings.delete_remote
       (Examples.exclusions true [Examples.ex_b; Examples.ex_c])
       "sonarr.settings.exclusions" [Examples.res_b; Examples.res_c]
       (Examples.exclusions false [Examples.ex_c; Examples.ex_b]) []
     = (inr false, []).
Proof.
  apply (exclusions_in_sync_is_noop
           (Examples.exclusions true [Examples.ex_b; Examples.ex_c])
           "sonarr.settings.exclusions" [Examples.res_b; Examples.res_c]
           (Examples.exclusions false [Examples.ex_c; Examples.ex_b]) false []).
  - repeat (constructor; [simpl; intuition discriminate|]). constructor.
  - apply Permutation.perm_swap.
  - simpl. intros x [<-|[<-|[]]]; simpl; auto.
Defined.

Lemma exclusion_projection_roundtrip_witness :
  ListExclusion._from_remote Examples.res_b = Some Examples.ex_b.
Proof.
  apply (proj1 (proj2 exclusion_projection_roundtrip) Examples.ex_b 10).
  reflexivity.
Defined.

Lemma exclusions_from_remote_witness :
  ListExclusionsSettings.update_remote
    (Examples.exclusions false [Examples.ex_b; Examples.ex_c])
    "sonarr.settings.exclusions" [Examples.res_b; Examples.res_c]
    (Examples.exclusions false [Examples.ex_b; Examples.ex_c]) false []
  = (inr false, [])
  /\ ListExclusionsSettings.delete_remote
       (Examples.exclusions true [Examples.ex_b; Examples.ex_c])
       "sonarr.settings.exclusions" [Examples.res_b; Examples.res_c]
       (Examples.exclusions false [Examples.ex_b; Examples.ex_c]) []
     = (inr false, []).
Proof.
  apply (exclusions_from_remote_is_fixed_point
           [Examples.res_b; Examples.res_c]
           (Examples.exclusions false [Examples.ex_b; Examples.ex_c])
           "sonarr.settings.exclusions" false true []).
  - reflexivity.
  - repeat (constructor; [simpl; intuition discriminate|]). constructor.
Defined.

(** ** Sorting *)

Lemma sorted_ascending (l : list Z) : ascending (sorted l) = true.
Proof.
  unfold sorted. pose proof (ZSort.LocallySorted_sort l) as H.
  induction H as [|a|a b rest Hs IH Hab]; [reflexivity..|].
  change (ascending (a :: b :: rest))
    with (Z.leb a b && ascending (b :: rest))%bool.
  rewrite IH. unfold ZOrder.leb in Hab.
  destruct (a <=? b); [reflexivity | discriminate].
Qed.

Lemma sorted_permutation (l : list Z) : Permutation.Permutation (sorted l) l.
Proof. apply Permutation.Permutation_sym, ZSort.Permuted_sort. Qed.

Lemma sorted_in (l : list Z) (z : Z) : In z (sorted l) <-> In z l.
Proof.
  split; apply Permutation.Permutation_in.
  - apply sorted_permutation.
  - apply Permutation.Permutation_sym, sorted_permutation.
Qed.

Lemma NoDup_map_on {A B : Type} (f : A -> B) (l : list A) :
  NoDup l ->
  (forall x y, In x l -> In y l -> f x = f y -> x = y) ->
  NoDup (map f l).
Proof.
  induction l as [|a l IH]; simpl; intros Hnd Hinj; [constructor|].
  inversion Hnd; subst. constructor.
  - intros Hin. apply in_map_iff in Hin. destruct Hin as [y [Hy Hin]].
    assert (y = a) by (apply Hinj; auto). subst y. contradiction.
  - apply IH; [assumption|]. intros x y Hx Hy. apply Hinj; auto.
Qed.

(** ** Newznab categories in the indexer *)

Section NewznabFacts.
Import NabCategory NewznabIndexer.

(** A category value as the validator leaves it: a member, or an integer
    that is the code of no member. *)
Lemma of_value_value (c : NabCategory.t) : of_value (value c) = Some c.
Proof. destruct c; reflexivity. Qed.

Lemma decode_normal (z : Z) :
  match decode z with
  | inl _ => True
  | inr z' => of_value z' = None
  end.
Proof.
  unfold decode. destruct (of_value z) eqn:E; [exact I | exact E].
Qed.

Lemma decode_encode_normal (c : category) :
  match c with inl _ => True | inr z => of_value z = None end ->
  decode (encode c) = c.
Proof.
  destruct c as [m|z]; simpl; intros H.
  - unfold decode. now rewrite of_value_value.
  - unfold decode. now rewrite H.
Qed.

Lemma validate_categories_in (value : list category) (c : category) :
  In c (validate_categories value) ->
  match c with inl _ => True | inr z => of_value z = None end.
Proof.
  unfold validate_categories. rewrite nodup_In, in_map_iff.
  intros [c0 [Hc _]]. subst c. destruct c0 as [m|z]; [exact I|].
  apply decode_normal.
Qed.

(** The validator gives a set in normal form, and validating again changes
    nothing: every value is a member or an integer that is no member's code,
    no value occurs twice, and the result is a fixed point of the
    validator. *)
Theorem newznab_validate_categories_normal_form :
  forall value,
    NoDup (validate_categories value)
    /\ (forall c, In c (validate_categories value) ->
          match c with
          | inl _ => True
          | inr z => of_value z = None
          end)
    /\ validate_categories (validate_categories value)
       = validate_categories value.
Proof.
  intros value. split; [apply NoDup_nodup|].
  split; [apply validate_categories_in|].
  unfold validate_categories at 1.
  rewrite (map_ext_in _ (fun c => c)).
  - rewrite map_id. apply nodup_fixed_point.
    unfold validate_categories. apply NoDup_nodup.
  - intros c Hc. apply validate_categories_in in Hc.
    destruct c as [m|z]; [reflexivity|].
    unfold decode. now rewrite Hc.
Qed.

(** Projection round trip of a validated category set: the codes sent to the
    remote side do not decrease, none occurs twice, they are the codes of
    the set, and decoding them gives the values of the set back. *)
Theorem newznab_categories_roundtrip :
  forall value,
    let v := validate_categories value in
    ascending (categories_encoder v) = true
    /\ NoDup (categories_encoder v)
    /\ (forall z, In z (categories_encoder v) <-> In z (map encode v))
    /\ (forall c, In c (map decode (categories_encoder v)) <-> In c v).
Proof.
  intros value v. unfold categories_encoder.
  split; [apply sorted_ascending|]. split; [|split].
  - apply (Permutation.Permutation_NoDup
             (Permutation.Permutation_sym (sorted_permutation _))).
    apply NoDup_map_on; [apply NoDup_nodup|].
    intros x y Hx Hy Heq.
    apply validate_categories_in in Hx, Hy.
    rewrite <- (decode_encode_normal x Hx), <- (decode_encode_normal y Hy).
    now rewrite Heq.
  - intros z. apply sorted_in.
  - intros c. rewrite in_map_iff. split.
    + intros [z [Hz Hin]]. apply (proj1 (sorted_in _ _)) in Hin.
      apply in_map_iff in Hin. destruct Hin as [x [Hx Hin]]. subst z c.
      rewrite decode_encode_normal; [exact Hin|].
      now apply validate_categories_in in Hin.
    + intros Hin. exists (encode c). split.
      * apply decode_encode_normal. now apply validate_categories_in in Hin.
      * apply (proj2 (sorted_in _ _)). now apply in_map.
Qed.

Example validate_categories_run :
  validate_categories [inr 5040; inl TV_HD; inr 1234; inl TV_SD; inr 5030]
  = [inl TV_HD; inr 1234; inl TV_SD].
Proof. reflexivity. Qed.

Example categories_encoder_run :
  categories_encoder [inl TV_HD; inr 1234; inl TV_SD] = [1234; 5030; 5040].
Proof. reflexivity. Qed.
End NewznabFacts.

(** ** Download clients: tags, schema, payloads *)

Section DownloadClientTags.
Import DownloadClient.

Lemma tag_ids_of_defined (tag_ids : dict string Z) (v : list string) :
  (forall tag, In tag v -> dict_mem String.eqb tag tag_ids = true) ->
  exists l,
    tag_ids_of tag_ids v = inr l
    /\ Forall2 (fun tag i => dict_get String.eqb tag tag_ids = Some i) v l.
Proof.
  induction v as [|tag rest IH]; intros Hall; simpl.
  - exists []. split; [reflexivity | constructor].
  - unfold dict_index. pose proof (Hall tag (or_introl eq_refl)) as Hm.
    unfold dict_mem in Hm.
    destruct (dict_get String.eqb tag tag_ids) as [i|] eqn:Eg; [|discriminate].
    destruct IH as [l [Hl Hf]]; [intros t Ht; apply Hall; now right|].
    rewrite Hl. exists (i :: l). split; [reflexivity|]. now constructor.
Qed.

Lemma tag_ids_of_undefined (tag_ids : dict string Z) (v : list string)
    (tag : string) :
  In tag v -> dict_mem String.eqb tag tag_ids = false ->
  tag_ids_of tag_ids v = inl KeyError.
Proof.
  induction v as [|t rest IH]; intros Hin Hm; [destruct Hin|]. simpl.
  unfold dict_index.
  destruct (dict_get String.eqb t tag_ids) as [i|] eqn:Eg; [|reflexivity].
  destruct Hin as [->|Hin].
  - unfold dict_mem in Hm. rewrite Eg in Hm. discriminate.
  - now rewrite (IH Hin Hm).
Qed.

Lemma Forall2_in_left {A B : Type} (R : A -> B -> Prop) (l : list A)
    (l' : list B) (a : A) :
  Forall2 R l l' -> In a l -> exists b, In b l' /\ R a b.
Proof.
  induction 1 as [|x y l l' Hxy _ IH]; intros Hin; [destruct Hin|].
  destruct Hin as [->|Hin].
  - exists y. split; [now left | exact Hxy].
  - destruct (IH Hin) as [b [Hb Hr]]. exists b. split; [now right | exact Hr].
Qed.

Lemma Forall2_in_right {A B : Type} (R : A -> B -> Prop) (l : list A)
    (l' : list B) (b : B) :
  Forall2 R l l' -> In b l' -> exists a, In a l /\ R a b.
Proof.
  induction 1 as [|x y l l' Hxy _ IH]; intros Hin; [destruct Hin|].
  destruct Hin as [->|Hin].
  - exists x. split; [now left | exact Hxy].
  - destruct (IH Hin) as [a [Ha Hr]]. exists a. split; [now right | exact Hr].
Qed.

(** The encoder of tags raises [KeyError] exactly when a tag of the download
    client is not among the known tags; otherwise it gives the ids of the
    tags, in ascending order. *)
Theorem download_client_tags_encoder_result :
  forall tag_ids v,
    (tags_encoder tag_ids v = inl KeyError <->
     exists tag, In tag v /\ dict_mem String.eqb tag tag_ids = false)
    /\ ((forall tag, In tag v -> dict_mem String.eqb tag tag_ids = true) ->
        exists ids,
          tags_encoder tag_ids v = inr ids
          /\ ascending ids = true
          /\ (forall i, In i ids <->
                exists tag, In tag v
                            /\ dict_get String.eqb tag tag_ids = Some i)).
Proof.
  intros tag_ids v.
  assert (Hdef : (forall tag, In tag v -> dict_mem String.eqb tag tag_ids = true) ->
                 exists ids,
                   tags_encoder tag_ids v = inr ids
                   /\ ascending ids = true
                   /\ (forall i, In i ids <->
                         exists tag, In tag v
                                     /\ dict_get String.eqb tag tag_ids = Some i)).
  { intros Hall. destruct (tag_ids_of_defined tag_ids v Hall) as [l [Hl Hf]].
    exists (sorted l). unfold tags_encoder. rewrite Hl. simpl.
    split; [reflexivity|]. split; [apply sorted_ascending|].
    intros i. rewrite sorted_in. split.
    - intros Hi. apply (Forall2_in_right _ _ _ _ Hf Hi).
    - intros [tag [Ht Hg]].
      destruct (Forall2_in_left _ _ _ _ Hf Ht) as [j [Hj Hgj]].
      congruence. }
  split; [|exact Hdef]. split.
  - intros Herr.
    destruct (existsb (fun tag => negb (dict_mem String.eqb tag tag_ids)) v)
      eqn:Ex.
    + apply existsb_exists in Ex. destruct Ex as [tag [Hin Hm]].
      exists tag. split; [exact Hin | now apply negb_true_iff].
    + exfalso. destruct Hdef as [ids [Hok _]]; [|congruence].
      intros tag Hin.
      destruct (dict_mem String.eqb tag tag_ids) eqn:Em; [reflexivity|].
      assert (Ht : existsb (fun tag => negb (dict_mem String.eqb tag tag_ids)) v
                   = true).
      { apply existsb_exists. exists tag. split; [exact Hin|].
        now rewrite Em. }
      congruence.
  - intros [tag [Hin Hm]]. unfold tags_encoder.
    now rewrite (tag_ids_of_undefined tag_ids v tag Hin Hm).
Qed.

(** Projection round trip of the tags of a download client: when every tag
    is known and no two known tags share an id, decoding the encoded ids
    gives the tags back, each once. *)
Theorem download_client_tags_roundtrip :
  forall tag_ids v,
    NoDup (map snd tag_ids) ->
    (forall tag, In tag v -> dict_mem String.eqb tag tag_ids = true) ->
    exists ids,
      tags_encoder tag_ids v = inr ids
      /\ (forall tag, In tag (tags_decoder tag_ids ids) <-> In tag v).
Proof.
  intros tag_ids v Hinj Hall.
  destruct (tag_ids_of_defined tag_ids v Hall) as [l [Hl Hf]].
  exists (sorted l). unfold tags_encoder. rewrite Hl. simpl.
  split; [reflexivity|].
  intros tag. unfold tags_decoder. rewrite in_map_iff. split.
  - intros [[t i] [Ht Hin]]. simpl in Ht. subst t.
    apply filter_In in Hin. destruct Hin as [Hin Hex]. simpl in Hex.
    apply (existsb_eqb_In Z.eqb Z.eqb_eq) in Hex.
    apply (proj1 (sorted_in _ _)) in Hex.
    destruct (Forall2_in_right _ _ _ _ Hf Hex) as [t' [Ht' Hg]].
    apply (dict_get_in String.eqb String.eqb_eq) in Hg.
    assert (Heq : (tag, i) = (t', i))
      by (apply (NoDup_map_inj snd tag_ids); auto).
    inversion Heq. now subst.
  - intros Hin.
    destruct (Forall2_in_left _ _ _ _ Hf Hin) as [i [Hi Hg]].
    exists (tag, i). split; [reflexivity|].
    apply filter_In. split.
    + now apply (dict_get_in String.eqb String.eqb_eq).
    + simpl. apply (existsb_eqb_In Z.eqb Z.eqb_eq).
      now apply (proj2 (sorted_in _ _)).
Qed.
End DownloadClientTags.

Example tags_encoder_run :
  DownloadClient.tags_encoder Scenarios.tag_ids ["kids"; "movies"]%string
  = inr [1; 3].
Proof. reflexivity. Qed.

Example tags_decoder_run :
  DownloadClient.tags_decoder Scenarios.tag_ids [1; 3]
  = ["movies"; "kids"]%string.
Proof. reflexivity. Qed.

Lemma download_client_tags_encoder_witness :
  DownloadClient.tags_encoder Scenarios.tag_ids ["kids"; "drama"]%string
  = inl KeyError.
Proof.
  apply (proj2 (proj1 (download_client_tags_encoder_result Scenarios.tag_ids
                         ["kids"; "drama"]%string))).
  exists "drama"%string. split; [simpl; auto | reflexivity].
Defined.

Lemma download_client_tags_roundtrip_witness :
  exists ids,
    DownloadClient.tags_encoder Scenarios.tag_ids ["kids"; "movies"]%string
    = inr ids
    /\ (forall tag, In tag (DownloadClient.tags_decoder Scenarios.tag_ids ids)
                    <-> In tag ["kids"; "movies"]%string).
Proof.
  apply (download_client_tags_roundtrip Scenarios.tag_ids
           ["kids"; "movies"]%string).
  - repeat (constructor; [simpl; intuition discriminate|]). constructor.
  - intros tag [<-|[<-|[]]]; reflexivity.
Defined.

Section DownloadClientPayloads.
Import DownloadClient.

Lemma find_split {A : Type} (p : A -> bool) (l : list A) (x : A) :
  find p l = Some x ->
  exists pre post,
    l = pre ++ x :: post /\ p x = true /\ (forall y, In y pre -> p y = false).
Proof.
  induction l as [|a l IH]; simpl; [discriminate|].
  destruct (p a) eqn:Ea.
  - intros H. inversion H; subst. exists [], l. repeat split; auto.
    intros y [].
  - intros H. destruct (IH H) as (pre & post & Hl & Hx & Hpre).
    exists (a :: pre), post. subst. repeat split; auto.
    intros y [<-|Hy]; auto.
Qed.

(** Lookup in a dictionary restricted to the keys that satisfy [q]. *)
Lemma dict_get_filter_keys {V : Type} (q : string -> bool) (k : string)
    (d : dict string V) :
  dict_get String.eqb k (filter (fun kv => q (fst kv)) d) =
  if q k then dict_get String.eqb k d else None.
Proof.
  induction d as [|[k0 v0] d IH]; simpl; [now destruct (q k)|].
  destruct (q k0) eqn:Eq0; simpl.
  - destruct (String.eqb k k0) eqn:Ek.
    + apply String.eqb_eq in Ek. subst. now rewrite Eq0.
    + exact IH.
  - destruct (String.eqb k k0) eqn:Ek.
    + apply String.eqb_eq in Ek. subst. rewrite Eq0 in IH |- *. exact IH.
    + exact IH.
Qed.

Lemma NoDup_filter_keys {V : Type} (q : string * V -> bool)
    (d : dict string V) :
  NoDup (map fst d) -> NoDup (map fst (filter q d)).
Proof.
  induction d as [|[k0 v0] d IH]; simpl; intros H; [constructor|].
  inversion H; subst. destruct (q (k0, v0)); simpl.
  - constructor; [|now apply IH].
    intros Hin. apply H2. apply in_map_iff in Hin.
    destruct Hin as [kv [Hk Hin]]. apply filter_In in Hin.
    apply in_map_iff. exists kv. tauto.
  - now apply IH.
Qed.

Lemma get_api_schema_inr (self : DownloadClient.t)
    (schemas : list DownloadClientResource) (api_schema : pydict) :
  _get_api_schema self schemas = inr api_schema ->
  exists s,
    find (fun s => String.eqb (lower s.(implementation))
                              (lower self.(_implementation))) schemas = Some s
    /\ api_schema =
         filter (fun kv => negb (existsb (String.eqb (fst kv))
                                   ["id"; "name"]%string)) s.(to_dict).
Proof.
  unfold _get_api_schema.
  destruct (find _ schemas) as [s|]; [|discriminate].
  intros H. inversion H. now exists s.
Qed.

(** The schema a download client is created from is that of the first
    catalog entry with its implementation name, compared in lower case; it
    has neither [id] nor [name], and every other attribute of the entry. *)
Theorem get_api_schema_is_first_match_without_id_and_name :
  forall self schemas api_schema,
    _get_api_schema self schemas = inr api_schema ->
    exists pre s post,
      schemas = pre ++ s :: post
      /\ lower s.(implementation) = lower self.(_implementation)
      /\ (forall s', In s' pre ->
            lower s'.(implementation) <> lower self.(_implementation))
      /\ dict_get String.eqb "id"%string api_schema = None
      /\ dict_get String.eqb "name"%string api_schema = None
      /\ (forall k, k <> "id"%string -> k <> "name"%string ->
            dict_get String.eqb k api_schema
            = dict_get String.eqb k s.(to_dict)).
Proof.
  intros self schemas api_schema H.
  apply get_api_schema_inr in H. destruct H as [s [Hfind ->]].
  apply find_split in Hfind. destruct Hfind as (pre & post & Hl & Hs & Hpre).
  exists pre, s, post. split; [exact Hl|].
  split; [now apply String.eqb_eq|]. split.
  { intros s' Hin. apply String.eqb_neq. now apply Hpre. }
  rewrite !(dict_get_filter_keys
              (fun k => negb (existsb (String.eqb k) ["id"; "name"]%string))).
  split; [reflexivity|]. split; [reflexivity|].
  intros k Hid Hname.
  rewrite (dict_get_filter_keys
             (fun k => negb (existsb (String.eqb k) ["id"; "name"]%string))).
  simpl. apply String.eqb_neq in Hid, Hname. now rewrite Hid, Hname.
Qed.

(** A missing field list stops the creation: when the computed attributes
    have no ["fields"], or the matching schema has none, [_create_remote]
    raises [KeyError] and makes no API call. *)
Theorem create_remote_without_fields_raises_keyerror :
  forall get_create_remote_attrs self tree schemas tag_ids name t0 api_schema,
    _get_api_schema self schemas = inr api_schema ->
    (dict_get String.eqb "fields"%string
       (get_create_remote_attrs self tree tag_ids) = None
     \/ (exists computed field_values,
           dict_get String.eqb "fields"%string
             (get_create_remote_attrs self tree tag_ids) = Some computed
           /\ field_values_of computed = inr field_values
           /\ dict_get String.eqb "fields"%string api_schema = None)) ->
    _create_remote get_create_remote_attrs self tree schemas tag_ids name t0
      = (inl KeyError, t0).
Proof.
  intros gcra self tree schemas tag_ids name t0 api_schema Hs H.
  unfold _create_remote, create_remote_attrs. rewrite Hs. simpl.
  unfold dict_index at 1. destruct H as [H|(computed & fv & Hc & Hfv & Hn)].
  - rewrite H. reflexivity.
  - rewrite Hc. simpl. rewrite Hfv. simpl.
    unfold dict_index. rewrite Hn. reflexivity.
Qed.

(** The top level of the creation payload: the schema's [id] and [name]
    never reach it, its name is the name given unless the computed
    attributes carry one, and any other attribute than the field list is the
    computed one if there is one and the schema's otherwise. *)
Theorem create_remote_payload_top_level :
  forall get_create_remote_attrs self tree schemas tag_ids name payload s,
    find (fun s => String.eqb (lower s.(implementation))
                              (lower self.(_implementation))) schemas = Some s ->
    NoDup (dict_keys s.(to_dict)) ->
    NoDup (dict_keys (get_create_remote_attrs self tree tag_ids)) ->
    create_remote_attrs get_create_remote_attrs self tree schemas tag_ids name
      = inr payload ->
    let set_attrs := get_create_remote_attrs self tree tag_ids in
    dict_get String.eqb "id"%string payload
      = dict_get String.eqb "id"%string set_attrs
    /\ dict_get String.eqb "name"%string payload
       = match dict_get String.eqb "name"%string set_attrs with
         | Some v => Some v
         | None => Some (PyStr name)
         end
    /\ (forall k, k <> "fields"%string -> k <> "id"%string ->
                  k <> "name"%string ->
          dict_get String.eqb k payload
          = match dict_get String.eqb k set_attrs with
            | Some v => Some v
            | None => dict_get String.eqb k s.(to_dict)
            end).
Proof.
  intros gcra self tree schemas tag_ids name payload s Hfind Hwfs Hwf Hp
    set_attrs.
  unfold create_remote_attrs, _get_api_schema in Hp. rewrite Hfind in Hp.
  simpl in Hp.
  apply bind_result_inr in Hp. destruct Hp as [computed [Hc Hp]].
  apply bind_result_inr in Hp. destruct Hp as [fv [Hfv Hp]].
  apply bind_result_inr in Hp. destruct Hp as [sf [Hsf Hp]].
  apply bind_result_inr in Hp. destruct Hp as [merged [Hm Hp]].
  inversion Hp as [Hpayload]. clear Hp.
  fold set_attrs.
  assert (Hwf' : NoDup (map fst (dict_set String.eqb "fields"%string
                                   (PyList merged) set_attrs)))
    by (apply (dict_set_nodup String.eqb String.eqb_eq); exact Hwf).
  assert (Hwfa : NoDup (map fst
            (filter (fun kv => negb (existsb (String.eqb (fst kv))
                                       ["id"; "name"]%string)) s.(to_dict))))
    by (apply NoDup_filter_keys; exact Hwfs).
  assert (Hget : forall k, k <> "fields"%string ->
            dict_get String.eqb k
              (dict_set String.eqb "fields"%string (PyList merged) set_attrs)
            = dict_get String.eqb k set_attrs).
  { intros k Hk. rewrite (dict_get_set String.eqb String.eqb_eq).
    apply String.eqb_neq in Hk. now rewrite Hk. }
  split; [|split].
  - rewrite (dict_get_merge String.eqb String.eqb_eq _ _ Hwf').
    rewrite Hget by discriminate.
    destruct (dict_get String.eqb "id"%string set_attrs); [reflexivity|].
    rewrite (dict_get_merge String.eqb String.eqb_eq _ _ Hwfa).
    rewrite (dict_get_filter_keys
               (fun k => negb (existsb (String.eqb k) ["id"; "name"]%string))).
    reflexivity.
  - rewrite (dict_get_merge String.eqb String.eqb_eq _ _ Hwf').
    rewrite Hget by discriminate.
    destruct (dict_get String.eqb "name"%string set_attrs); [reflexivity|].
    rewrite (dict_get_merge String.eqb String.eqb_eq _ _ Hwfa).
    rewrite (dict_get_filter_keys
               (fun k => negb (existsb (String.eqb k) ["id"; "name"]%string))).
    reflexivity.
  - intros k Hfields Hid Hname.
    rewrite (dict_get_merge String.eqb String.eqb_eq _ _ Hwf').
    rewrite (Hget k Hfields).
    destruct (dict_get String.eqb k set_attrs); [reflexivity|].
    rewrite (dict_get_merge String.eqb String.eqb_eq _ _ Hwfa).
    rewrite (dict_get_filter_keys
               (fun k => negb (existsb (String.eqb k) ["id"; "name"]%string))).
    simpl. apply String.eqb_neq in Hid, Hname, Hfields.
    rewrite Hid, Hname. simpl.
    now destruct (dict_get String.eqb k (to_dict s)).
Qed.

(** The top level of the update payload: every attribute other than the
    field list is the computed one if there is one and the live resource's
    otherwise; in particular the live [id] stays unless an [id] is
    computed. *)
Theorem update_remote_payload_top_level :
  forall updated_attrs api_downloadclient payload,
    NoDup (dict_keys updated_attrs) ->
    update_remote_attrs updated_attrs api_downloadclient = inr payload ->
    forall k, k <> "fields"%string ->
      dict_get String.eqb k payload
      = match dict_get String.eqb k updated_attrs with
        | Some v => Some v
        | None => dict_get String.eqb k api_downloadclient.(to_dict)
        end.
Proof.
  intros updated_attrs api payload Hwf Hp k Hk.
  unfold update_remote_attrs in Hp.
  apply bind_result_inr in Hp. destruct Hp as [attrs' [Ha Hp]].
  inversion Hp as [Hpayload]. clear Hp.
  destruct (dict_mem String.eqb "fields"%string updated_attrs).
  - apply bind_result_inr in Ha. destruct Ha as [computed [Hc Ha]].
    apply bind_result_inr in Ha. destruct Ha as [fv [Hfv Ha]].
    apply bind_result_inr in Ha. destruct Ha as [lf [Hlf Ha]].
    apply bind_result_inr in Ha. destruct Ha as [merged [Hm Ha]].
    inversion Ha; subst attrs'.
    rewrite (dict_get_merge String.eqb String.eqb_eq).
    + rewrite (dict_get_set String.eqb String.eqb_eq).
      apply String.eqb_neq in Hk. now rewrite Hk.
    + apply (dict_set_nodup String.eqb String.eqb_eq). exact Hwf.
  - inversion Ha; subst attrs'.
    now rewrite (dict_get_merge String.eqb String.eqb_eq _ _ Hwf).
Qed.
End DownloadClientPayloads.

Lemma get_api_schema_first_match_witness :
  exists pre s post,
    [Examples.transmission_schema; Examples.qbittorrent_schema]
      = pre ++ s :: post
    /\ lower s.(DownloadClient.implementation)
       = lower Examples.qbittorrent_client.(DownloadClient._implementation)
    /\ (forall s', In s' pre ->
          lower s'.(DownloadClient.implementation)
          <> lower Examples.qbittorrent_client.(DownloadClient._implementation)).
Proof.
  destruct (get_api_schema_is_first_match_without_id_and_name
              Examples.qbittorrent_client
              [Examples.transmission_schema; Examples.qbittorrent_schema]
              _ eq_refl)
    as (pre & s & post & Hl & Hs & Hpre & _).
  exists pre, s, post. auto.
Defined.

Lemma create_remote_without_fields_witness :
  DownloadClient._create_remote Scenarios.get_create_attrs_without_fields
    Examples.qbittorrent_client
    "sonarr.settings.download_clients.definitions['seedbox']"
    [Examples.qbittorrent_schema] [] "seedbox" []
  = (inl KeyError, []).
Proof.
  apply (create_remote_without_fields_raises_keyerror
           Scenarios.get_create_attrs_without_fields
           Examples.qbittorrent_client
           "sonarr.settings.download_clients.definitions['seedbox']"%string
           [Examples.qbittorrent_schema] [] "seedbox"%string [] _ eq_refl).
  left. reflexivity.
Defined.

Lemma create_remote_payload_top_level_witness :
  exists payload,
    DownloadClient.create_remote_attrs Examples.get_create_attrs
      Examples.qbittorrent_client
      "sonarr.settings.download_clients.definitions['seedbox']"
      [Examples.transmission_schema; Examples.qbittorrent_schema] []
      "seedbox" = inr payload
    /\ dict_get String.eqb "id"%string payload = None
    /\ dict_get String.eqb "name"%string payload = Some (PyStr "seedbox").
Proof.
  assert (H1 : NoDup (dict_keys
                        (DownloadClient.to_dict Examples.qbittorrent_schema))).
  { repeat (constructor; [simpl; intuition discriminate|]). constructor. }
  assert (H2 : NoDup (dict_keys Examples.computed_attrs)).
  { repeat (constructor; [simpl; intuition discriminate|]). constructor. }
  eexists. split; [reflexivity|].
  destruct (create_remote_payload_top_level Examples.get_create_attrs
              Examples.qbittorrent_client
              "sonarr.settings.download_clients.definitions['seedbox']"%string
              [Examples.transmission_schema; Examples.qbittorrent_schema] []
              "seedbox"%string _ Examples.qbittorrent_schema
              eq_refl H1 H2 eq_refl) as [Hid [Hname _]].
  split; [exact Hid | exact Hname].
Defined.

Lemma update_remote_payload_top_level_witness :
  exists payload,
    DownloadClient.update_remote_attrs Examples.computed_attrs
      Examples.qbittorrent_live = inr payload
    /\ dict_get String.eqb "id"%string payload = Some (PyInt 7)
    /\ dict_get String.eqb "enable"%string payload = Some (PyBool true).
Proof.
  assert (H2 : NoDup (dict_keys Examples.computed_attrs)).
  { repeat (constructor; [simpl; intuition discriminate|]). constructor. }
  eexists. split; [reflexivity|]. split.
  - apply (update_remote_payload_top_level Examples.computed_attrs
             Examples.qbittorrent_live _ H2 eq_refl "id"%string).
    discriminate.
  - apply (update_remote_payload_top_level Examples.computed_attrs
             Examples.qbittorrent_live _ H2 eq_refl "enable"%string).
    discriminate.
Defined.

(** ** URL base and host URL *)

Section UrlBase.
Import SonarrSecrets.

Lemma lstrip_not_starts (c : ascii) (s : string) :
  starts_with c (lstrip c s) = false.
Proof.
  induction s as [|a s IH]; simpl; [reflexivity|].
  destruct (Ascii.eqb a c) eqn:E; [exact IH | simpl; exact E].
Qed.

Lemma lstrip_id (c : ascii) (s : string) :
  starts_with c s = false -> lstrip c s = s.
Proof. destruct s as [|a s]; simpl; [reflexivity|]. now intros ->. Qed.

Lemma rstrip_not_ends (c : ascii) (s : string) :
  ends_with c (rstrip c s) = false.
Proof.
  induction s as [|a s IH]; simpl; [reflexivity|].
  destruct (rstrip c s) as [|b r] eqn:Er.
  - destruct (Ascii.eqb a c) eqn:E; simpl; [reflexivity | exact E].
  - exact IH.
Qed.

Lemma rstrip_id (c : ascii) (s : string) :
  ends_with c s = false -> rstrip c s = s.
Proof.
  induction s as [|a s IH]; simpl; [reflexivity|].
  destruct s as [|b s'].
  - simpl. now intros ->.
  - intros H. rewrite (IH H). reflexivity.
Qed.

Lemma rstrip_keeps_start (c : ascii) (s : string) :
  starts_with c s = false -> starts_with c (rstrip c s) = false.
Proof.
  destruct s as [|a s]; simpl; [reflexivity|]. intros E.
  destruct (rstrip c s); [rewrite E|]; simpl; exact E.
Qed.

Lemma strip_shape (c : ascii) (s : string) :
  starts_with c (strip c s) = false /\ ends_with c (strip c s) = false.
Proof.
  unfold strip. split.
  - apply rstrip_keeps_start, lstrip_not_starts.
  - apply rstrip_not_ends.
Qed.

Lemma strip_id (c : ascii) (s : string) :
  starts_with c s = false -> ends_with c s = false -> strip c s = s.
Proof.
  intros Hs He. unfold strip. rewrite (lstrip_id c s Hs). now apply rstrip_id.
Qed.

Lemma strip_slash_prefixed (t : string) :
  starts_with "/" t = false -> ends_with "/" t = false ->
  strip "/" (String "/" t) = t.
Proof.
  intros Hs He. unfold strip. simpl. fold (strip "/" t). now apply strip_id.
Qed.

Lemma validate_url_base_shape (v : option string) (u : string) :
  validate_url_base v = Some u ->
  exists body,
    u = String "/" body /\ body <> EmptyString
    /\ starts_with "/" body = false /\ ends_with "/" body = false.
Proof.
  destruct v as [s|]; simpl; [|discriminate].
  destruct (String.eqb s "") eqn:E1; simpl; [discriminate|].
  destruct (String.eqb (strip "/" s) "") eqn:E2; simpl; [discriminate|].
  intros H. inversion H. exists (strip "/" s).
  split; [reflexivity|]. split; [now apply String.eqb_neq|].
  apply strip_shape.
Qed.

Lemma validate_url_base_idempotent (v : option string) :
  validate_url_base (validate_url_base v) = validate_url_base v.
Proof.
  destruct (validate_url_base v) as [u|] eqn:Ev; [|reflexivity].
  destruct (validate_url_base_shape v u Ev) as (body & -> & Hne & Hs & He).
  unfold validate_url_base.
  rewrite (strip_slash_prefixed body Hs He). simpl.
  apply String.eqb_neq in Hne. now rewrite Hne.
Qed.

(** The validator of [url_base] normalises: a result is a slash followed by
    a non-empty body that neither starts nor ends with a slash; the result
    is [None] exactly for [None] and for strings made of slashes only (the
    empty one among them); and validating a result gives it back. *)
Theorem validate_url_base_normalises :
  (forall v u,
     validate_url_base v = Some u ->
     exists body,
       u = String "/" body /\ body <> EmptyString
       /\ starts_with "/" body = false /\ ends_with "/" body = false)
  /\ (forall v,
        validate_url_base v = None <->
        v = None \/ exists s, v = Some s /\ strip "/" s = EmptyString)
  /\ (forall v,
        validate_url_base (validate_url_base v) = validate_url_base v).
Proof.
  pose proof validate_url_base_shape as Hshape.
  split; [exact Hshape|]. split.
  - intros [s|]; simpl.
    + destruct (String.eqb s "") eqn:E1; simpl.
      * apply String.eqb_eq in E1. subst. split; [|reflexivity].
        intros _. right. exists EmptyString. auto.
      * destruct (String.eqb (strip "/" s) "") eqn:E2; simpl.
        -- apply String.eqb_eq in E2. split; [|reflexivity].
           intros _. right. exists s. auto.
        -- apply String.eqb_neq in E2. split; [discriminate|].
           intros [H|[s' [H Hs]]]; [discriminate|].
           inversion H; subst. contradiction.
    + split; [auto | reflexivity].
  - exact validate_url_base_idempotent.
Qed.

Lemma ends_with_append (c : ascii) (a b : string) :
  b <> EmptyString -> ends_with c (a ++ b) = ends_with c b.
Proof.
  intros Hb. induction a as [|x a IH]; simpl; [reflexivity|].
  destruct (a ++ b)%string as [|y r] eqn:Eab.
  - destruct a; simpl in Eab; [contradiction | discriminate].
  - exact IH.
Qed.

Lemma ends_with_append_empty (c : ascii) (a : string) :
  ends_with c (a ++ "") = ends_with c a.
Proof.
  induction a as [|x a IH]; simpl; [reflexivity|].
  destruct a as [|y a']; simpl in *; [reflexivity | exact IH].
Qed.

Lemma uint_string_no_final_slash (d : Decimal.uint) :
  ends_with "/" (NilEmpty.string_of_uint d) = false.
Proof.
  induction d as [|d IH|d IH|d IH|d IH|d IH|d IH|d IH|d IH|d IH|d IH]; simpl;
    try reflexivity;
    destruct (NilEmpty.string_of_uint d); try reflexivity; exact IH.
Qed.

Lemma str_of_int_shape (z : Z) :
  str_of_int z <> EmptyString /\ ends_with "/" (str_of_int z) = false.
Proof.
  unfold str_of_int. destruct (Z.to_int z) as [d|d]; simpl.
  - destruct d; simpl; split; try discriminate; try reflexivity;
      match goal with
      | |- context [NilEmpty.string_of_uint ?d] =>
          pose proof (uint_string_no_final_slash d) as H;
          destruct (NilEmpty.string_of_uint d); [reflexivity | exact H]
      end.
  - split; [discriminate|].
    destruct d; simpl; try reflexivity;
      match goal with
      | |- context [NilEmpty.string_of_uint ?d] =>
          pose proof (uint_string_no_final_slash d) as H;
          destruct (NilEmpty.string_of_uint d); [reflexivity | exact H]
      end.
Qed.

(** The host URL built on a validated URL base never ends with a slash, so
    an API path appended to it starts at a single slash. *)
Theorem host_url_has_no_final_slash :
  forall protocol hostname port url_base,
    ends_with "/"
      (_get_host_url protocol hostname port (validate_url_base url_base))
    = false.
Proof.
  intros protocol hostname port url_base. unfold _get_host_url.
  destruct (str_of_int_shape port) as [Hne Hend].
  assert (Hne' : forall x, (str_of_int port ++ x)%string <> EmptyString).
  { intros x H. destruct (str_of_int port); [contradiction | discriminate]. }
  rewrite (ends_with_append "/" protocol) by (simpl; discriminate).
  rewrite (ends_with_append "/" "://") by (destruct hostname; simpl; discriminate).
  rewrite (ends_with_append "/" hostname) by (simpl; discriminate).
  rewrite (ends_with_append "/" ":") by apply Hne'.
  destruct (validate_url_base url_base) as [u|] eqn:Ev.
  - destruct (validate_url_base_shape url_base u Ev)
      as (body & -> & Hb & _ & He).
    change (String.eqb (String "/" body) "") with false. cbv iota.
    rewrite ends_with_append by discriminate.
    destruct body as [|a body]; [contradiction | exact He].
  - rewrite ends_with_append_empty. exact Hend.
Qed.
End UrlBase.

Example validate_url_base_run :
  SonarrSecrets.validate_url_base (Some "//sonarr/api//"%string)
  = Some "/sonarr/api"%string
  /\ SonarrSecrets.validate_url_base (Some "///"%string) = None
  /\ SonarrSecrets.validate_url_base (Some ""%string) = None.
Proof. repeat split. Qed.

Example host_url_run :
  SonarrSecrets._get_host_url "https" "sonarr.example.com" 8989
    (SonarrSecrets.validate_url_base (Some "sonarr/"%string))
  = "https://sonarr.example.com:8989/sonarr"%string.
Proof. reflexivity. Qed.

Lemma validate_url_base_normalises_witness :
  exists body,
    "/sonarr/api"%string = String "/" body /\ body <> EmptyString
    /\ SonarrSecrets.starts_with "/" body = false
    /\ SonarrSecrets.ends_with "/" body = false.
Proof.
  apply (proj1 validate_url_base_normalises (Some "//sonarr/api//"%string)).
  reflexivity.
Defined.

(** ** Retrieving the secrets *)

Section SecretsFacts.
Import SonarrSecrets.
Variable api_get : string -> string -> result pyval.
Variable get_system_status : string -> pyval -> raised + string.

(** How [get_from_url] fails. It never raises the API client's
    [UnauthorizedException]: that one becomes the plugin's
    [SonarrSecretsUnauthorizedError]. Without an API key, a refusal (401) of
    [/initialize.json] becomes [SonarrSecretsUnauthorizedError] too, any
    other exception of the request is raised as it is, and in both cases the
    system status is not asked for. *)
Theorem get_from_url_translates_unauthorized :
  forall hostname port protocol url_base api_key,
    let host :=
      _get_host_url protocol hostname port (validate_url_base url_base) in
    get_from_url api_get get_system_status hostname port protocol url_base
      api_key <> inl UnauthorizedException
    /\ (forall e,
          truthy api_key = None ->
          api_get host "/initialize.json" = inl e ->
          get_from_url api_get get_system_status hostname port protocol
            url_base api_key
          = inl (Exn match e with
                     | SonarrAPIError status_code =>
                         if Z.eqb status_code 401
                         then SonarrSecretsUnauthorizedError
                         else e
                     | _ => e
                     end))
    /\ (forall k,
          truthy api_key = Some k ->
          get_system_status host (PyStr k) = inl UnauthorizedException ->
          get_from_url api_get get_system_status hostname port protocol
            url_base api_key
          = inl (Exn SonarrSecretsUnauthorizedError)).
Proof.
  intros hostname port protocol url_base api_key host.
  split; [|split].
  - unfold get_from_url. fold host.
    destruct (truthy api_key) as [k|].
    + destruct (get_system_status host (PyStr k)) as [[e|]|v]; discriminate.
    + destruct (api_get host "/initialize.json") as [e|json].
      * destruct e; try discriminate.
        destruct (status_code =? UNAUTHORIZED); discriminate.
      * destruct (getitem json "apiKey") as [e|k]; [discriminate|].
        destruct (get_system_status host k) as [[e|]|v]; discriminate.
  - intros e Hk He. unfold get_from_url. fold host. rewrite Hk, He.
    destruct e; try reflexivity.
    unfold UNAUTHORIZED. now destruct (status_code =? 401).
  - intros k Hk Hs. unfold get_from_url. fold host. now rewrite Hk, Hs.
Qed.

(** What [get_from_url] returns. The secrets carry the normalised URL base,
    their own host URL is the URL that was asked, and asking the system
    status again with that URL and their API key gives their version. With
    an API key configured, the key is that one. *)
Theorem get_from_url_returns_working_secrets :
  forall host_name port_number scheme base key secrets,
    get_from_url api_get get_system_status host_name port_number scheme base
      key = inr secrets ->
    secrets.(url_base) = validate_url_base base
    /\ host_url secrets
       = _get_host_url scheme host_name port_number (validate_url_base base)
    /\ get_system_status (host_url secrets) secrets.(api_key)
       = inr secrets.(version)
    /\ (forall k, truthy key = Some k -> secrets.(api_key) = PyStr k).
Proof.
  intros host_name port_number scheme base key secrets H.
  unfold get_from_url in H.
  set (host := _get_host_url scheme host_name port_number
                 (validate_url_base base)) in *.
  assert (Hbuilt : forall k v,
            get_system_status host k = inr v ->
            secrets = {| hostname := host_name; port := port_number;
                         protocol := scheme;
                         url_base := validate_url_base
                                       (validate_url_base base);
                         api_key := k; version := v |} ->
            url_base secrets = validate_url_base base
            /\ host_url secrets = host
            /\ get_system_status (host_url secrets) (api_key secrets)
               = inr (version secrets)
            /\ api_key secrets = k).
  { intros k v Hs ->. unfold host_url. simpl.
    rewrite validate_url_base_idempotent. fold host. auto. }
  destruct (truthy key) as [k|] eqn:Hk.
  - destruct (get_system_status host (PyStr k)) as [[e|]|v] eqn:Hs;
      try discriminate.
    injection H as Hsec. symmetry in Hsec.
    destruct (Hbuilt _ _ Hs Hsec) as (H1 & H2 & H3 & H4).
    split; [exact H1|]. split; [exact H2|]. split; [exact H3|].
    intros k' Hk'. inversion Hk'. now subst.
  - destruct (api_get host "/initialize.json") as [e|json].
    + destruct e; try discriminate.
      destruct (status_code =? UNAUTHORIZED); discriminate.
    + destruct (getitem json "apiKey") as [e|k]; [discriminate|].
      destruct (get_system_status host k) as [[e|]|v] eqn:Hs;
        try discriminate.
      injection H as Hsec. symmetry in Hsec.
      destruct (Hbuilt _ _ Hs Hsec) as (H1 & H2 & H3 & H4).
      split; [exact H1|]. split; [exact H2|]. split; [exact H3|].
      intros k' Hk'. discriminate.
Qed.
End SecretsFacts.

(** With an API key configured, [/initialize.json] is not requested:
    [get_from_url] and [get] give the same result whatever that request
    would answer. *)
Theorem get_from_url_with_key_skips_initialize :
  forall api_get api_get' get_system_status hostname port protocol url_base
         api_key,
    SonarrSecrets.truthy api_key <> None ->
    SonarrSecrets.get_from_url api_get get_system_status hostname port
      protocol url_base api_key
    = SonarrSecrets.get_from_url api_get' get_system_status hostname port
        protocol url_base api_key
    /\ (forall config,
          config.(SonarrSecrets.config_api_key) = api_key ->
          SonarrSecrets.get api_get get_system_status config
          = SonarrSecrets.get api_get' get_system_status config).
Proof.
  intros api_get api_get' gss hostname port protocol url_base api_key Hk.
  assert (Hidem : SonarrSecrets.truthy (SonarrSecrets.truthy api_key)
                  = SonarrSecrets.truthy api_key).
  { destruct api_key as [k|]; simpl; [|reflexivity].
    destruct (String.eqb k "") eqn:E; simpl; [reflexivity | now rewrite E]. }
  split.
  - unfold SonarrSecrets.get_from_url.
    destruct (SonarrSecrets.truthy api_key); [reflexivity | contradiction].
  - intros config Hc. unfold SonarrSecrets.get, SonarrSecrets.get_from_url.
    rewrite Hc, Hidem.
    destruct (SonarrSecrets.truthy api_key); [reflexivity | contradiction].
Qed.

Lemma get_from_url_translates_unauthorized_witness :
  SonarrSecrets.get_from_url Scenarios.refusing_api_get Scenarios.system_status
    "sonarr.example.com" 8989 "https" (Some "sonarr/"%string) None
  = inl (SonarrSecrets.Exn SonarrSecretsUnauthorizedError)
  /\ SonarrSecrets.get_from_url Scenarios.open_api_get Scenarios.system_status
       "sonarr.example.com" 8989 "https" (Some "sonarr/"%string)
       (Some "wrong"%string)
     = inl (SonarrSecrets.Exn SonarrSecretsUnauthorizedError).
Proof.
  split.
  - apply (proj1 (proj2 (get_from_url_translates_unauthorized
                           Scenarios.refusing_api_get Scenarios.system_status
                           "sonarr.example.com" 8989 "https"
                           (Some "sonarr/"%string) None))
             (SonarrAPIError 401)); reflexivity.
  - apply (proj2 (proj2 (get_from_url_translates_unauthorized
                           Scenarios.open_api_get Scenarios.system_status
                           "sonarr.example.com" 8989 "https"
                           (Some "sonarr/"%string) (Some "wrong"%string)))
             "wrong"%string); reflexivity.
Defined.

Lemma get_from_url_returns_working_secrets_witness :
  exists secrets,
    SonarrSecrets.get_from_url Scenarios.open_api_get Scenarios.system_status
      "sonarr.example.com" 8989 "https" (Some "sonarr/"%string) None
    = inr secrets
    /\ SonarrSecrets.host_url secrets
       = "https://sonarr.example.com:8989/sonarr"%string
    /\ Scenarios.system_status (SonarrSecrets.host_url secrets)
         secrets.(SonarrSecrets.api_key)
       = inr secrets.(SonarrSecrets.version).
Proof.
  eexists. split; [reflexivity|].
  destruct (get_from_url_returns_working_secrets Scenarios.open_api_get
              Scenarios.system_status "sonarr.example.com" 8989 "https"
              (Some "sonarr/"%string) None _ eq_refl)
    as (_ & Hhost & Hstatus & _).
  split; [exact Hhost | exact Hstatus].
Defined.

Lemma get_from_url_with_key_witness :
  SonarrSecrets.get_from_url Scenarios.refusing_api_get Scenarios.system_status
    "sonarr.example.com" 8989 "https" None
    (Some "0123456789abcdef0123456789abcdef"%string)
  = SonarrSecrets.get_from_url Scenarios.open_api_get Scenarios.system_status
      "sonarr.example.com" 8989 "https" None
      (Some "0123456789abcdef0123456789abcdef"%string).
Proof.
  apply (get_from_url_with_key_skips_initialize Scenarios.refusing_api_get
           Scenarios.open_api_get Scenarios.system_status
           "sonarr.example.com" 8989 "https" None
           (Some "0123456789abcdef0123456789abcdef"%string)).
  discriminate.
Defined.

Lemma newznab_validate_categories_witness :
  match (inr 1234 : NabCategory.category) with
  | inl _ => True
  | inr z => NabCategory.of_value z = None
  end.
Proof.
  apply (proj1 (proj2 (newznab_validate_categories_normal_form
                         [inr 5040; inl NabCategory.TV_HD; inr 1234]))
           (inr 1234)).
  simpl. auto.
Defined.

Lemma newznab_categories_roundtrip_witness :
  In (inl NabCategory.TV_HD)
    (map NabCategory.decode
       (NewznabIndexer.categories_encoder
          (NewznabIndexer.validate_categories
             [inr 5040; inl NabCategory.TV_HD; inr 1234]))).
Proof.
  apply (proj2 (proj2 (proj2 (proj2 (newznab_categories_roundtrip
                                       [inr 5040; inl NabCategory.TV_HD;
                                        inr 1234])))
                  (inl NabCategory.TV_HD))).
  simpl. auto.
Defined.
